(** * wedding_pictures_app: the upload servers and the signing function

    A shallow embedding of the three programs of the repository:
    - the Cloudinary upload server ([server.js], first part),
    - the Netlify signing function ([server.js], second part),
    - the Google Drive upload server (the earlier [server.js]),
    followed by the properties of their folder computation, their
    validation guards and their error paths. *)

From Stdlib Require Import ZArith NArith Ascii String List Bool Lia.
From stdpp Require Import base decidable option list strings gmap.

#[local] Set Warnings "-register-all".

Open Scope N_scope.

(** ** JavaScript strings

    A JavaScript string is a sequence of UTF-16 code units. A regular
    expression without the [u] flag and [String.prototype.length] both work
    on code units, so a string is a list of code units here. *)

Module Js.

Abbreviation jsstring := (list N).

(** A source literal made of ASCII characters. *)
Fixpoint lit (s : string) : jsstring :=
  match s with
  | EmptyString => []
  | String a s' => N_of_ascii a :: lit s'
  end.

(** [Boolean(s)] for a string: only the empty string is falsy. *)
Definition truthy (s : jsstring) : bool :=
  match s with [] => false | _ :: _ => true end.

(** A value that is a string or [undefined]. *)
Abbreviation jsvalue := (option jsstring).

(** [Boolean(v)]: [undefined] and [''] are falsy. *)
Definition truthy_val (v : jsvalue) : bool :=
  match v with Some s => truthy s | None => false end.

(** [v || d] where [d] is a string. *)
Definition or_else (v : jsvalue) (d : jsstring) : jsstring :=
  match v with
  | Some s => if truthy s then s else d
  | None => d
  end.

(** [String(v)] / string concatenation of a value. *)
Definition to_String (v : jsvalue) : jsstring :=
  match v with Some s => s | None => lit "undefined" end.

Definition in_range (lo hi c : N) : bool := (lo <=? c) && (c <=? hi).

(** The character classes of the two sanitizing expressions. *)
Definition is_alnum (c : N) : bool :=
  in_range 97 122 c || in_range 65 90 c || in_range 48 57 c.

(** [[a-zA-Z0-9_-]] *)
Definition class_word_dash (c : N) : bool :=
  is_alnum c || (c =? 95) || (c =? 45).

(** [[a-zA-Z0-9]] *)
Definition class_alnum (c : N) : bool := is_alnum c.

(** [s.replace(/[^CLASS]/g, r)] for a one-code-unit replacement [r]: every
    code unit outside the class is a match of the negated class, and each
    match is replaced on its own. *)
Definition replace_outside (class : N -> bool) (r : N) (s : jsstring)
  : jsstring :=
  map (fun c => if class c then c else r) s.

Definition underscore : N := 95.

(** ECMAScript WhiteSpace and LineTerminator code points, the ones
    [String.prototype.trim] strips. *)
Definition is_space (c : N) : bool :=
  in_range 9 13 c || (c =? 32) || (c =? 160) || (c =? 5760)
  || in_range 8192 8202 c || (c =? 8232) || (c =? 8233) || (c =? 8239)
  || (c =? 8287) || (c =? 12288) || (c =? 65279).

Fixpoint trimStart (s : jsstring) : jsstring :=
  match s with
  | [] => []
  | c :: s' => if is_space c then trimStart s' else s
  end.

Definition trimEnd (s : jsstring) : jsstring := rev (trimStart (rev s)).

Definition trim (s : jsstring) : jsstring := trimEnd (trimStart s).

(** [s.slice(a, b)] for non-negative indices. *)
Definition slice (a b : nat) (s : jsstring) : jsstring :=
  take (b - a)%nat (drop a s).

(** *** Numbers

    A JavaScript number is an IEEE 754 double. The numbers of these
    programs are integers, [NaN] or an infinity: [Date.now()], its quotient
    by 1000, the result of [parseInt] and its products. [Int z] is the
    double whose value is the integer [z]; negative zero is not told apart
    from zero, the two print alike. *)
Inductive jsnum := NaN | Int (z : Z) | Infinity (negative : bool).

Definition digit_char (d : N) : N :=
  if d <? 10 then 48 + d else 87 + d.

(** Digits of a positive number in the given radix, most significant first.
    The recursion is on the binary representation, which bounds the number
    of digits. *)
Fixpoint digits_fuel (fuel : nat) (radix n : N) (acc : jsstring) : jsstring :=
  match fuel with
  | O => acc
  | S fuel' =>
      let acc' := digit_char (n mod radix) :: acc in
      if n / radix =? 0 then acc' else digits_fuel fuel' radix (n / radix) acc'
  end.

Definition digits (radix n : N) : jsstring :=
  digits_fuel (S (N.to_nat (N.log2 n))) radix n [].

(** [z.toString(radix)] for an integer [z] that is printed with all its
    digits, as [Date.now()] is. *)
Definition int_toString (radix : N) (z : Z) : jsstring :=
  match z with
  | Z0 => lit "0"
  | Zpos p => digits radix (Npos p)
  | Zneg p => lit "-" ++ digits radix (Npos p)
  end.

(** The double nearest to a natural number, as a natural number: the 53
    leading bits are kept and the rest is rounded off, a tie going to the
    even significand. A number below 2^53 has no bits to round off. *)
Definition round_to_double (n : N) : N :=
  let e := N.log2 n - 52 in
  let q := n / 2 ^ e in
  let r := n mod 2 ^ e in
  let half := 2 ^ (e - 1) in
  let up := (half <? r) || ((r =? half) && N.odd q) in
  (if up then q + 1 else q) * 2 ^ e.

(** The number value of an integer: an infinity when the rounded value is
    beyond the largest double. *)
Definition to_double (z : Z) : jsnum :=
  let n := round_to_double (Z.abs_N z) in
  if n <? 2 ^ 1024 then Int (Z.sgn z * Z.of_N n) else Infinity (z <? 0)%Z.

(** The decimal [Number::toString] prints for the double [n], looked for
    among the multiples of [p], a power of ten: of the two multiples next
    to [n], one that denotes [n]; the nearer one if both do; the one with
    the even last digit if they are equally near. *)
Definition nearest_multiple (n p : N) : option N :=
  let lo := n / p * p in
  let hi := lo + p in
  match round_to_double lo =? n, round_to_double hi =? n with
  | true, true =>
      Some (if n - lo <? hi - n then lo
            else if hi - n <? n - lo then hi
            else if N.even (n / p) then lo else hi)
  | true, false => Some lo
  | false, true => Some hi
  | false, false => None
  end.

(** The fewest significant digits come first: the multiples of [10^e], then
    of [10^(e-1)], down to the number itself. *)
Fixpoint shortest_from (n : N) (e : nat) : N :=
  match nearest_multiple n (10 ^ N.of_nat e) with
  | Some v => v
  | None =>
      match e with
      | O => n
      | S e' => shortest_from n e'
      end
  end.

Definition shortest (n : N) : N :=
  shortest_from n (Nat.pred (length (digits 10 n))).

Fixpoint drop_zeros (s : jsstring) : jsstring :=
  match s with
  | 48 :: s' => drop_zeros s'
  | _ => s
  end.

(** [d.ddde+x]: the significant digits and the decimal exponent. *)
Definition exponent_form (ds : jsstring) : jsstring :=
  match rev (drop_zeros (rev ds)) with
  | [] => ds
  | d :: rest =>
      d :: (match rest with [] => [] | _ => lit "." ++ rest end)
        ++ lit "e+" ++ digits 10 (N.of_nat (Nat.pred (length ds)))
  end.

(** [String(n)] for a double that is a positive integer: all the digits
    when there are at most 21 of them, the exponent form beyond. *)
Definition natural_toString (n : N) : jsstring :=
  let ds := digits 10 (shortest n) in
  if (length ds <=? 21)%nat then ds else exponent_form ds.

(** [String(n)] / template interpolation of a number. *)
Definition num_toString (n : jsnum) : jsstring :=
  match n with
  | NaN => lit "NaN"
  | Int Z0 => lit "0"
  | Int (Zpos p) => natural_toString (Npos p)
  | Int (Zneg p) => lit "-" ++ natural_toString (Npos p)
  | Infinity negative => (if negative then lit "-" else []) ++ lit "Infinity"
  end.

(** [parseInt(s, 10)]: leading white space, an optional sign, then the
    longest run of decimal digits; [NaN] when there is none. The integer
    the digits denote is rounded to the nearest double, as Node does. *)
Fixpoint parse_digits (s : jsstring) (acc : option Z) : option Z :=
  match s with
  | [] => acc
  | c :: s' =>
      if in_range 48 57 c
      then parse_digits s' (Some (10 * default 0%Z acc + Z.of_N (c - 48))%Z)
      else acc
  end.

Definition parseInt10 (s : jsstring) : jsnum :=
  let s := trimStart s in
  let (sign, s) :=
    match s with
    | 45 :: r => ((-1)%Z, r)
    | 43 :: r => (1%Z, r)
    | _ => (1%Z, s)
    end in
  match parse_digits s None with
  | Some z => to_double (sign * z)
  | None => NaN
  end.

(** [out.split(key).join(r)] for a non-empty [key]: every occurrence of
    [key], scanning from the left without overlap, becomes [r]. [skip]
    counts the code units of the occurrence still to be dropped. *)
Fixpoint split_join_from (skip : nat) (key r s : jsstring) : jsstring :=
  match s with
  | [] => []
  | c :: s' =>
      match skip with
      | S k => split_join_from k key r s'
      | O =>
          if bool_decide (key `prefix_of` s)
          then r ++ split_join_from (Nat.pred (length key)) key r s'
          else c :: split_join_from O key r s'
      end
  end.

Definition split_join (key r s : jsstring) : jsstring :=
  split_join_from O key r s.

(** *** [crypto.createHash('sha1').update(s).digest('hex')]

    Node encodes the string as UTF-8 (an unpaired surrogate becomes U+FFFD)
    and hashes the bytes with SHA-1 (FIPS 180-4); the digest is printed as
    40 lower-case hexadecimal digits. Words are 32-bit, kept in [N] with
    the wrap-around written out. *)

Definition is_high_surrogate (c : N) : bool := in_range 55296 56319 c.
Definition is_low_surrogate (c : N) : bool := in_range 56320 57343 c.

Definition utf8_replacement : list N := [239; 191; 189].

Definition utf8_of_code_point (cp : N) : list N :=
  if cp <? 128 then [cp]
  else if cp <? 2048 then [192 + cp / 64; 128 + cp mod 64]
  else if cp <? 65536 then
    [224 + cp / 4096; 128 + (cp / 64) mod 64; 128 + cp mod 64]
  else
    [240 + cp / 262144; 128 + (cp / 4096) mod 64;
     128 + (cp / 64) mod 64; 128 + cp mod 64].

Fixpoint utf8 (s : jsstring) : list N :=
  match s with
  | [] => []
  | c :: s' =>
      if is_high_surrogate c then
        match s' with
        | d :: s'' =>
            if is_low_surrogate d
            then utf8_of_code_point
                   (65536 + (c - 55296) * 1024 + (d - 56320)) ++ utf8 s''
            else utf8_replacement ++ utf8 s'
        | [] => utf8_replacement
        end
      else if is_low_surrogate c then utf8_replacement ++ utf8 s'
      else utf8_of_code_point c ++ utf8 s'
  end.

Module Sha1.

Definition modulus : N := 4294967296.
Definition add32 (a b : N) : N := (a + b) mod modulus.
Definition rotl32 (n x : N) : N :=
  N.lor (N.shiftl x n mod modulus) (N.shiftr x (32 - n)).
Definition not32 (x : N) : N := N.lxor x 4294967295.

(** Padding: a one bit, zeros up to 56 modulo 64, then the bit length on
    eight bytes, big-endian. *)
Definition be_bytes (count : nat) (x : N) : list N :=
  map (fun i => N.shiftr x (8 * N.of_nat i) mod 256) (rev (seq 0 count)).

Definition pad (msg : list N) : list N :=
  let len := length msg in
  msg ++ [128] ++ replicate ((119 - len mod 64) mod 64)%nat 0
      ++ be_bytes 8 (8 * N.of_nat len).

Definition be_word (bs : list N) : N :=
  fold_left (fun acc b => acc * 256 + b) bs 0.

(** Cut a list into consecutive chunks of [k] elements. *)
Fixpoint chunks_fuel {A} (fuel k : nat) (l : list A) : list (list A) :=
  match fuel, l with
  | O, _ | _, [] => []
  | S fuel', _ => take k l :: chunks_fuel fuel' k (drop k l)
  end.

Definition chunks {A} (k : nat) (l : list A) : list (list A) :=
  chunks_fuel (length l) k l.

(** The message schedule, most recent word first. *)
Fixpoint extend (count : nat) (ws : list N) : list N :=
  match count with
  | O => ws
  | S count' =>
      let w i := nth i ws 0 in
      extend count'
        (rotl32 1 (N.lxor (N.lxor (w 2%nat) (w 7%nat))
                          (N.lxor (w 13%nat) (w 15%nat))) :: ws)
  end.

Definition schedule (block : list N) : list N :=
  rev (extend 64 (rev block)).

Definition round_f (t : nat) (b c d : N) : N :=
  if (t <? 20)%nat then N.lor (N.land b c) (N.land (not32 b) d)
  else if (t <? 40)%nat then N.lxor (N.lxor b c) d
  else if (t <? 60)%nat
       then N.lor (N.lor (N.land b c) (N.land b d)) (N.land c d)
  else N.lxor (N.lxor b c) d.

Definition round_k (t : nat) : N :=
  if (t <? 20)%nat then 1518500249
  else if (t <? 40)%nat then 1859775393
  else if (t <? 60)%nat then 2400959708
  else 3395469782.

Record state := State { ha : N; hb : N; hc : N; hd : N; he : N }.

Definition init : state :=
  State 1732584193 4023233417 2562383102 271733878 3285377520.

Definition round (st : state) (tw : nat * N) : state :=
  let (t, w) := tw in
  let tmp :=
    add32 (add32 (add32 (add32 (rotl32 5 (ha st))
                               (round_f t (hb st) (hc st) (hd st)))
                        (he st))
                 (round_k t)) w in
  State tmp (ha st) (rotl32 30 (hb st)) (hc st) (hd st).

Definition compress (h : state) (block : list N) : state :=
  let ws := schedule block in
  let r := fold_left round (zip (seq 0 80) ws) h in
  State (add32 (ha h) (ha r)) (add32 (hb h) (hb r)) (add32 (hc h) (hc r))
        (add32 (hd h) (hd r)) (add32 (he h) (he r)).

Definition digest_words (msg : list N) : list N :=
  let blocks := chunks 16 (map be_word (chunks 4 (pad msg))) in
  let h := fold_left compress blocks init in
  [ha h; hb h; hc h; hd h; he h].

Definition hex_word (w : N) : jsstring :=
  map (fun i => digit_char (N.shiftr w (4 * N.of_nat i) mod 16))
      (rev (seq 0 8)).

Definition hex_digest (msg : list N) : jsstring :=
  concat (map hex_word (digest_words msg)).

End Sha1.

Definition sha1_hex (s : jsstring) : jsstring := Sha1.hex_digest (utf8 s).

End Js.

Import Js.

(** ** The host: disk, clock, random source, storage provider

    A handler runs against the host and leaves a trace of what it did:
    calls to the storage provider, file-system calls, console output, the
    response it sent. Exceptions are values. *)

Module Host.

(** A thrown value: the properties the handlers read, and [String(err)]. *)
Record js_error := JsError {
  err_name : jsvalue;
  err_code : jsvalue;
  err_message : jsvalue;
  err_stack : jsvalue;
  err_string : jsstring
}.

(** The values handed to [res.json] and [JSON.stringify]. A property whose
    value is [undefined] is dropped by the serializer. *)
Inductive json :=
| JUndefined
| JNull
| JBool (b : bool)
| JNum (n : jsnum)
| JStr (s : jsstring)
| JObj (fields : list (string * json)).

Definition json_of_value (v : jsvalue) : json :=
  match v with Some s => JStr s | None => JUndefined end.

(** [v ? String(v) : null] *)
Definition string_or_null (v : jsvalue) : json :=
  match v with
  | Some s => if truthy s then JStr s else JNull
  | None => JNull
  end.

Record response := Response { status : Z; body : json }.

(** [cloudinary.uploader.upload(path, options)] *)
Record upload_options := UploadOptions {
  folder : jsstring;
  resource_type : jsstring;
  use_filename : bool;
  unique_filename : bool;
  overwrite : bool
}.

Record upload_result := UploadResult {
  public_id : jsvalue;
  secure_url : jsvalue
}.

(** [drive.files.list] and [drive.files.create] *)
Record drive_resource := DriveResource {
  name : jsstring;
  mimeType : jsvalue;
  parents : list jsstring
}.

Record drive_media := DriveMedia {
  media_mimeType : jsstring;
  media_body : jsstring          (* the path [fs.createReadStream] opens *)
}.

Record drive_file := DriveFile {
  id : jsstring;
  file_name : jsvalue;
  webViewLink : jsvalue
}.

Inductive remote_call :=
| CloudinaryUpload (path : jsstring) (options : upload_options)
| DriveFilesList (q fields : jsstring)
| DriveFilesCreate (resource : drive_resource) (media : option drive_media)
                   (fields : jsstring).

Inductive event :=
| Remote (c : remote_call)
| ExistsSync (p : jsstring)
| UnlinkSync (p : jsstring)
| AppendFileSync (p : jsstring) (line : json)  (* the object whose JSON
                                                  text is the line added *)
| ConsoleError (args : list jsstring)
| Send (r : response)
| Next (e : js_error).

Inductive outcome (A : Type) :=
| Return (a : A)
| Throw (e : js_error).
Arguments Return {A} a.
Arguments Throw {A} e.

(** The storage provider answers a call, possibly depending on everything
    that happened before it. *)
Record provider := Provider {
  uploader_upload :
    list event -> jsstring -> upload_options -> outcome upload_result;
  files_list : list event -> jsstring -> jsstring -> outcome (list jsstring);
  files_create :
    list event -> drive_resource -> option drive_media -> jsstring ->
    outcome drive_file
}.

(** The [TypeError]s the engine raises in these programs. The text of
    their message depends on the version of the engine, so the errors are
    the host's. *)
Inductive type_error :=
| PropertyOfUndefined (property : string) (* reading a property of [undefined] *)
| NotAFunction (property : string)        (* calling a property that is no function *)
| NoPrimitiveValue.                       (* [String(v)] of an object without [toString] *)

Record world := World {
  files : gset jsstring;          (* the paths that exist on disk *)
  clock : Z;                      (* [Date.now()], milliseconds *)
  clock_iso : jsstring;           (* [new Date().toISOString()] *)
  random36 : jsstring;            (* [Math.random().toString(36)] *)
  append_fault : option js_error; (* what [appendFileSync] throws, if it does *)
  unlink_faults : list event -> jsstring -> option js_error;
                                  (* what [unlinkSync] of an existing path
                                     throws, if it does, after these events *)
  engine_errors : type_error -> js_error;
  remote : provider;
  trace : list event              (* oldest first *)
}.

Definition M (A : Type) : Type := world -> outcome A * world.

Definition ret {A} (a : A) : M A := fun w => (Return a, w).

Definition throw {A} (e : js_error) : M A := fun w => (Throw e, w).

Definition bind {A B} (m : M A) (k : A -> M B) : M B :=
  fun w =>
    match m w with
    | (Return a, w') => k a w'
    | (Throw e, w') => (Throw e, w')
    end.

(** [try { m } catch (err) { h err }] *)
Definition try_catch {A} (m : M A) (h : js_error -> M A) : M A :=
  fun w =>
    match m w with
    | (Return a, w') => (Return a, w')
    | (Throw e, w') => h e w'
    end.

(** [try { m } finally { f }] *)
Definition try_finally {A} (m : M A) (f : M unit) : M A :=
  fun w =>
    let (r, w') := m w in
    match f w' with
    | (Return _, w'') => (r, w'')
    | (Throw e, w'') => (Throw e, w'')
    end.

Definition emit (e : event) (w : world) : world :=
  World (files w) (clock w) (clock_iso w) (random36 w) (append_fault w)
        (unlink_faults w) (engine_errors w) (remote w) (trace w ++ [e]).

Definition set_files (fs : gset jsstring) (w : world) : world :=
  World fs (clock w) (clock_iso w) (random36 w) (append_fault w)
        (unlink_faults w) (engine_errors w) (remote w) (trace w).

(** The engine throws a [TypeError]. *)
Definition raise {A} (t : type_error) : M A :=
  fun w => (Throw (engine_errors w t), w).

Definition log (e : event) : M unit := fun w => (Return tt, emit e w).

Definition enoent (syscall p : jsstring) : js_error :=
  let msg := lit "ENOENT: no such file or directory, " ++ syscall
             ++ lit " '" ++ p ++ lit "'" in
  JsError (Some (lit "Error")) (Some (lit "ENOENT")) (Some msg) None
          (lit "Error: " ++ msg).

(** [fs.existsSync(p)] *)
Definition existsSync (p : jsstring) : M bool :=
  fun w => (Return (bool_decide (p ∈ files w)), emit (ExistsSync p) w).

(** [fs.unlinkSync(p)]: removes the file, or throws: when there is no such
    file, and when the file system refuses the deletion (a file in use, a
    directory that cannot be written), in which case the file stays. *)
Definition unlinkSync (p : jsstring) : M unit :=
  fun w =>
    let w' := emit (UnlinkSync p) w in
    if bool_decide (p ∈ files w)
    then match unlink_faults w (trace w) p with
         | Some e => (Throw e, w')
         | None => (Return tt, set_files (files w ∖ {[p]}) w')
         end
    else (Throw (enoent (lit "unlink") p), w').

(** [fs.appendFileSync(p, line)]: creates the file when it is missing. *)
Definition appendFileSync (p : jsstring) (line : json) : M unit :=
  fun w =>
    match append_fault w with
    | Some e => (Throw e, w)
    | None => (Return tt, set_files ({[p]} ∪ files w)
                                    (emit (AppendFileSync p line) w))
    end.

Definition console_error (args : list jsstring) : M unit :=
  log (ConsoleError args).

Definition Date_now : M Z := fun w => (Return (clock w), w).

Definition Date_toISOString : M jsstring := fun w => (Return (clock_iso w), w).

Definition Math_random_toString36 : M jsstring :=
  fun w => (Return (random36 w), w).

(** [res.status(code).json(body)] *)
Definition send (code : Z) (b : json) : M unit := log (Send (Response code b)).

(** [next(err)] *)
Definition next (e : js_error) : M unit := log (Next e).

(** [await cloudinary.uploader.upload(path, options)] *)
Definition cloudinary_upload (path : jsstring) (options : upload_options)
  : M upload_result :=
  fun w => (uploader_upload (remote w) (trace w) path options,
            emit (Remote (CloudinaryUpload path options)) w).

(** [await drive.files.list({ q, fields })], projected on the ids of
    [data.files] *)
Definition drive_files_list (q fields : jsstring) : M (list jsstring) :=
  fun w => (files_list (remote w) (trace w) q fields,
            emit (Remote (DriveFilesList q fields)) w).

(** [await drive.files.create({ resource, media, fields })], projected on
    [data] *)
Definition drive_files_create (resource : drive_resource)
    (media : option drive_media) (fields : jsstring) : M drive_file :=
  fun w => (files_create (remote w) (trace w) resource media fields,
            emit (Remote (DriveFilesCreate resource media fields)) w).

(** Readings of a trace. *)
Definition responses (t : list event) : list response :=
  omap (fun e => match e with Send r => Some r | _ => None end) t.

Definition remote_calls (t : list event) : list remote_call :=
  omap (fun e => match e with Remote c => Some c | _ => None end) t.

Definition unlinks (t : list event) : list jsstring :=
  omap (fun e => match e with UnlinkSync p => Some p | _ => None end) t.

(** The deletions of a trace that the file system refused, with the error
    of each, for a trace that deletes files that exist. The trace is
    replayed from [before]. *)
Fixpoint refused (faults : list event -> jsstring -> option js_error)
    (before t : list event) : list js_error :=
  match t with
  | [] => []
  | ev :: t' =>
      match ev with
      | UnlinkSync p =>
          match faults before p with
          | Some e => e :: refused faults (before ++ [ev]) t'
          | None => refused faults (before ++ [ev]) t'
          end
      | _ => refused faults (before ++ [ev]) t'
      end
  end.

End Host.

Import Host.

Declare Scope host_scope.
Delimit Scope host_scope with host.
Notation "x <- m ;; k" := (bind m (fun x => k))
  (at level 100, m at next level, right associativity) : host_scope.
Notation "m ;;; k" := (bind m (fun _ => k))
  (at level 100, right associativity) : host_scope.
Open Scope host_scope.

(** The uploaded file as the multipart middleware describes it. *)
Record upload_file := UploadFile {
  file_path : jsstring;
  originalname : jsvalue;
  mimetype : jsstring
}.

(** A property of the parsed body, as far as the handlers can tell values
    apart. A text field of a multipart body is a string; a repeated field
    is an array and a field with a bracketed name an array or an object
    without prototype; a JSON body holds any JSON value. What the handlers
    ask of a value that is not a string is [Boolean(v)] and [String(v)],
    which throws for an object that has no [toString]; such a value has no
    method [replace]. *)
Inductive field :=
| Absent
| Text (s : jsstring)
| Other (truthy_value : bool) (text : option jsstring).

(** [Boolean(v)] *)
Definition field_truthy (v : field) : bool :=
  match v with
  | Absent => false
  | Text s => truthy s
  | Other b _ => b
  end.

(** [req.body], with the one property the handlers read. *)
Record form := Form { field_guestName : field }.

(** The request once [express.json()] and [upload.single('file')] have run:
    [req.body] and [req.file]. When no parser took the request, [req.body]
    is an empty object under Express 4 and stays [undefined] under
    Express 5. *)
Record request := Request {
  req_body : option form;
  req_file : option upload_file
}.

(** [req.body.guestName] when it is a string. *)
Definition body_guestName (req : request) : jsvalue :=
  match req_body req with
  | Some (Form (Text s)) => Some s
  | _ => None
  end.

(** [v || ''] *)
Definition field_or_empty (v : field) : field :=
  if field_truthy v then v else Text [].

(** The receiver of [v.replace(...)]: a string has the method. *)
Definition replace_receiver (v : field) : M jsstring :=
  match v with
  | Text s => ret s
  | Absent => raise (PropertyOfUndefined "replace")
  | Other _ _ => raise (NotAFunction "replace")
  end.

(** [v ? String(v) : null] *)
Definition field_string_or_null (v : field) : M json :=
  match v with
  | Absent => ret JNull
  | Text s => ret (if truthy s then JStr s else JNull)
  | Other false _ => ret JNull
  | Other true (Some text) => ret (JStr text)
  | Other true None => raise NoPrimitiveValue
  end.

(** Run a handler on a fresh request: the trace starts empty. *)
Definition fresh (w : world) : world :=
  World (files w) (clock w) (clock_iso w) (random36 w) (append_fault w)
        (unlink_faults w) (engine_errors w) (remote w) [].

Definition serve {A} (h : M A) (w : world) : world := snd (h (fresh w)).

Definition result {A} (h : M A) (w : world) : outcome A := fst (h (fresh w)).

(** [path.join(dir, name)] for a normalized directory other than the root. *)
Definition path_join (dir name : jsstring) : jsstring :=
  dir ++ lit "/" ++ name.

(** ** The Cloudinary upload server *)

Module CloudinaryServer.

Section Server.

(** [process.env] and [__dirname] *)
Variable env : gmap string jsstring.
Variable dirname : jsstring.

Definition MAX_FILE_SIZE_MB : jsnum :=
  parseInt10 (or_else (env !! "MAX_FILE_SIZE_MB"%string) (lit "50")).

Definition mainFolder : jsstring :=
  or_else (env !! "CLOUDINARY_FOLDER"%string) (lit "wedding_photos").

Definition sanitized (guestName : jsstring) : jsstring :=
  replace_outside class_word_dash underscore guestName.

Definition uploadFolder (guestName : jsstring) : jsstring :=
  mainFolder ++ lit "/" ++ sanitized guestName.

(** The options of the upload call. *)
Definition upload_call_options (guestName : jsstring) : upload_options :=
  {| folder := uploadFolder guestName;
     resource_type := lit "auto";
     use_filename := true;
     unique_filename := false;
     overwrite := false |}.

(** [if (tempPath && fs.existsSync(tempPath)) { try { fs.unlinkSync(tempPath); } catch (e) {} }] *)
Definition cleanup (tempPath : jsstring) : M unit :=
  if truthy tempPath then
    present <- existsSync tempPath ;;
    if present
    then try_catch (unlinkSync tempPath) (fun _ => ret tt)
    else ret tt
  else ret tt.

Definition errorId (now : Z) (random : jsstring) : jsstring :=
  int_toString 36 now ++ lit "-" ++ slice 2 8 random.

(** [redact(s)] for a string [s] *)
Definition redact (s : jsstring) : jsstring :=
  if negb (truthy s) then s
  else
    match env !! "CLOUDINARY_API_KEY"%string with
    | Some key =>
        if truthy key then split_join key (lit "[REDACTED_API_KEY]") s else s
    | None => s
    end.

(** [err && err.message ? err.message : String(err)] *)
Definition message_of (err : js_error) : jsstring :=
  if truthy_val (err_message err) then to_String (err_message err)
  else err_string err.

(** [redact(err && err.stack ? err.stack : null)] *)
Definition redacted_stack (err : js_error) : json :=
  match err_stack err with
  | Some st => if truthy st then JStr (redact st) else JNull
  | None => JNull
  end.

Definition logPath : jsstring := path_join dirname (lit "upload_errors.log").

(** The object literal [logEntry], its properties evaluated in order. *)
Definition logEntry (req : request) (err : js_error) (id : jsstring)
  : M (list (string * json)) :=
  ts <- Date_toISOString ;;
  guestName <- match req_body req with
               | Some form => field_string_or_null (field_guestName form)
               | None => ret JNull
               end ;;
  ret [ ("id", JStr id);
        ("ts", JStr ts);
        ("guestName", guestName);
        ("originalName",
           string_or_null (f ← req_file req; originalname f));
        ("message", JStr (redact (message_of err)));
        ("stack", redacted_stack err) ]%string.

Definition generic_error (id : jsstring) : jsstring :=
  lit "Error al subir el archivo. Contacta al administrador con el id: "
  ++ id.

(** The [catch (err)] block of the upload handler. *)
Definition on_upload_error (req : request) (tempPath : jsstring)
    (err : js_error) : M unit :=
  now <- Date_now ;;
  random <- Math_random_toString36 ;;
  let errorId := errorId now random in
  entry <- logEntry req err errorId ;;
  (try_catch (appendFileSync logPath (JObj entry))
     (fun e =>
        console_error
          [lit "No se pudo escribir upload_errors.log:"; message_of e])) ;;;
  (console_error
     [lit "Cloudinary upload error [id=" ++ errorId ++ lit "]:";
      redact (message_of err)]) ;;;
  (cleanup tempPath) ;;;
  send 500 (JObj [ ("success", JBool false);
                   ("error", JStr (generic_error errorId));
                   ("id", JStr errorId) ]%string).

(** [app.post('/upload', upload.single('file'), async (req, res) => ...)] *)
Definition upload_handler (req : request) : M unit :=
  match req_body req with
  | None => raise (PropertyOfUndefined "guestName")
  | Some form =>
      let guestName := field_or_empty (field_guestName form) in
      if negb (field_truthy guestName)
      then send 400 (JObj [("error", JStr (lit "guestName faltante"))]%string)
      else
        match req_file req with
        | None =>
            send 400 (JObj [("error", JStr (lit "Archivo faltante"))]%string)
        | Some file =>
            let tempPath := file_path file in
            try_catch
              (guest <- replace_receiver guestName ;;
               result <- cloudinary_upload tempPath
                           (upload_call_options guest) ;;
               (cleanup tempPath) ;;;
               send 200
                 (JObj [ ("success", JBool true);
                         ("file",
                            JObj [ ("public_id",
                                      json_of_value (public_id result));
                                   ("url",
                                      json_of_value (secure_url result)) ])
                       ]%string))
              (on_upload_error req tempPath)
        end
  end.

(** [Archivo demasiado grande. Tamaño máximo por archivo: ] *)
Definition too_large_prefix : jsstring :=
  lit "Archivo demasiado grande. Tama" ++ [241] ++ lit "o m" ++ [225]
  ++ lit "ximo por archivo: ".

(** The error middleware registered after the route. *)
Definition multer_error_middleware (err : js_error) : M unit :=
  if bool_decide (err_name err = Some (lit "MulterError")) then
    if bool_decide (err_code err = Some (lit "LIMIT_FILE_SIZE")) then
      send 413
        (JObj [ ("success", JBool false);
                ("error",
                   JStr (too_large_prefix ++ num_toString MAX_FILE_SIZE_MB
                         ++ lit " MB")) ]%string)
    else
      send 400
        (JObj [ ("success", JBool false);
                ("error",
                   JStr (lit "Error en la carga del archivo: "
                         ++ to_String (err_message err))) ]%string)
  else next err.

End Server.

End CloudinaryServer.

(** ** The signing function *)

Module SignFunction.

(** [event.queryStringParameters] is an object or [null]. *)
Record netlify_event := NetlifyEvent {
  queryStringParameters : option (gmap string jsstring)
}.

(** The text [JSON.stringify] produces, kept as the value it prints. *)
Inductive json_text := JSON_stringify (v : json).

Record netlify_response := NetlifyResponse {
  statusCode : Z;
  body : json_text
}.

Section Function.

Variable env : gmap string jsstring.

Definition CLOUD_NAME : jsvalue := env !! "CLOUDINARY_CLOUD_NAME"%string.
Definition API_KEY : jsvalue := env !! "CLOUDINARY_API_KEY"%string.
Definition API_SECRET : jsvalue := env !! "CLOUDINARY_API_SECRET"%string.
Definition BASE_FOLDER : jsstring :=
  or_else (env !! "CLOUDINARY_FOLDER"%string) (lit "wedding_photos").

(** [event.queryStringParameters || {}] *)
Definition qs (event : netlify_event) : gmap string jsstring :=
  default ∅ (queryStringParameters event).

(** [qs.guestName ? String(qs.guestName).trim() : ''] *)
Definition guestName (event : netlify_event) : jsstring :=
  match qs event !! "guestName"%string with
  | Some g => if truthy g then trim g else []
  | None => []
  end.

(** [(s) => (s || '').replace(/[^a-zA-Z0-9_-]/g, '_')] *)
Definition sanitize (s : jsstring) : jsstring :=
  replace_outside class_word_dash underscore (if truthy s then s else []).

(** [sanitize(guestName) || 'anonymous'] *)
Definition sanitized (event : netlify_event) : jsstring :=
  let s := sanitize (guestName event) in
  if truthy s then s else lit "anonymous".

Definition folder (event : netlify_event) : jsstring :=
  BASE_FOLDER ++ lit "/" ++ sanitized event.

(** [Math.floor(Date.now() / 1000)]: the quotient of an integer below 2^53
    by 1000 is at least 1/1000 away from the next integer, more than the
    rounding of the division, so the floor is the integer quotient. *)
Definition timestamp (now : Z) : Z := (now / 1000)%Z.

Definition toSign (folder : jsstring) (timestamp : Z) : jsstring :=
  lit "folder=" ++ folder ++ lit "&timestamp=" ++ int_toString 10 timestamp.

Definition signature (folder : jsstring) (timestamp : Z)
    (secret : jsstring) : jsstring :=
  sha1_hex (toSign folder timestamp ++ secret).

Definition not_configured : netlify_response :=
  NetlifyResponse 500
    (JSON_stringify
       (JObj [("error",
               JStr (lit "Cloudinary no configurado en el servidor (faltan env vars)"))]%string)).

(** [exports.handler] *)
Definition handler (event : netlify_event) : M netlify_response :=
  try_catch
    (match CLOUD_NAME, API_KEY, API_SECRET with
     | Some cloud_name, Some api_key, Some api_secret =>
         if negb (truthy cloud_name) || negb (truthy api_key)
            || negb (truthy api_secret)
         then ret not_configured
         else
           let folder := folder event in
           now <- Date_now ;;
           let timestamp := timestamp now in
           let signature := signature folder timestamp api_secret in
           ret (NetlifyResponse 200
                  (JSON_stringify
                     (JObj [ ("api_key", JStr api_key);
                             ("timestamp", JNum (Int timestamp));
                             ("signature", JStr signature);
                             ("cloud_name", JStr cloud_name);
                             ("folder", JStr folder) ]%string)))
     | _, _, _ => ret not_configured
     end)
    (fun err =>
       (console_error [lit "Error en sign function:"; err_string err]) ;;;
       ret (NetlifyResponse 500
              (JSON_stringify
                 (JObj [("error", JStr (lit "Internal server error"))]%string)))).

End Function.

End SignFunction.

(** ** The Google Drive upload server *)

Module DriveServer.

(** [new google.auth.OAuth2(client_id, client_secret, redirect_uris[0])] *)
Record OAuth2Client := OAuth2 {
  client_id : jsstring;
  client_secret : jsstring;
  redirect_uri : jsstring
}.

Section Server.

(** The module-level [oAuth2Client]: [null] when no credentials loaded. *)
Variable oAuth2Client : option OAuth2Client.

Definition mainFolder : jsstring := lit "Fotos_Boda".

Definition folder_mime : jsstring := lit "application/vnd.google-apps.folder".

Definition sanitizedName (guestName : jsstring) : jsstring :=
  replace_outside class_alnum underscore guestName.

Definition main_folder_query : jsstring :=
  lit "name='" ++ mainFolder ++ lit "' and mimeType='" ++ folder_mime
  ++ lit "' and trashed=false".

Definition guest_folder_query (sanitizedName folderId : jsstring) : jsstring :=
  lit "name='" ++ sanitizedName ++ lit "' and '" ++ folderId
  ++ lit "' in parents and mimeType='" ++ folder_mime
  ++ lit "' and trashed=false".

(** [files.length ? files[0].id : (await drive.files.create(...)).data.id] *)
Definition first_or_create (found : list jsstring)
    (resource : drive_resource) : M jsstring :=
  match found with
  | first :: _ => ret first
  | [] => created <- drive_files_create resource None (lit "id") ;;
          ret (id created)
  end.

(** The statements of the [try] block after the two guards. *)
Definition upload_steps (guestName : field) (file : upload_file) : M unit :=
  let tempPath := file_path file in
  folderRes <- drive_files_list main_folder_query (lit "files(id)") ;;
  folderId <- first_or_create folderRes
                {| name := mainFolder; mimeType := Some folder_mime;
                   parents := [] |} ;;
  guest <- replace_receiver guestName ;;
  let sanitizedName := sanitizedName guest in
  guestFolderRes <- drive_files_list
                      (guest_folder_query sanitizedName folderId)
                      (lit "files(id)") ;;
  guestFolderId <- first_or_create guestFolderRes
                     {| name := sanitizedName; mimeType := Some folder_mime;
                        parents := [folderId] |} ;;
  now <- Date_now ;;
  let fileMetadata :=
    {| name := int_toString 10 now ++ lit "_"
               ++ to_String (originalname file);
       mimeType := None;
       parents := [guestFolderId] |} in
  let media :=
    {| media_mimeType := mimetype file; media_body := file_path file |} in
  result <- drive_files_create fileMetadata (Some media)
              (lit "id, name, webViewLink") ;;
  (if truthy tempPath then
     present <- existsSync tempPath ;;
     if present then unlinkSync tempPath else ret tt
   else ret tt) ;;;
  send 200
    (JObj [ ("success", JBool true);
            ("file",
               JObj [ ("id", JStr (id result));
                      ("name", json_of_value (file_name result));
                      ("webViewLink", json_of_value (webViewLink result)) ])
          ]%string).

(** The value of [tempPath] when control reaches the [finally] block: it is
    assigned right after the two guards, before any statement that can
    throw, and stays [undefined] when a guard returns. *)
Definition tempPath_at_exit (req : request) : jsvalue :=
  match req_body req with
  | Some form =>
      if field_truthy (field_guestName form)
      then f ← req_file req; Some (file_path f)
      else None
  | None => None
  end.

(** The [finally] block. *)
Definition finally_cleanup (tempPath : jsvalue) : M unit :=
  match tempPath with
  | Some p =>
      if truthy p then
        present <- existsSync p ;;
        if present
        then try_catch (unlinkSync p) (fun _ => ret tt)
        else ret tt
      else ret tt
  | None => ret tt
  end.

(** [app.post("/upload", upload.single("file"), async (req, res) => ...)] *)
Definition upload_handler (req : request) : M unit :=
  match oAuth2Client with
  | None =>
      send 500
        (JObj [("error", JStr (lit "OAuth no configurado en el servidor"))]%string)
  | Some _ =>
      try_finally
        (try_catch
           (match req_body req with
            | None => raise (PropertyOfUndefined "guestName")
            | Some form =>
                let guestName := field_guestName form in
                if negb (field_truthy guestName) then
                  send 400
                    (JObj [("error", JStr (lit "guestName faltante"))]%string)
                else
                  match req_file req with
                  | None =>
                      send 400
                        (JObj [("error", JStr (lit "Archivo faltante"))]%string)
                  | Some file => upload_steps guestName file
                  end
            end)
           (fun err =>
              (console_error [err_string err]) ;;;
              send 500 (JObj [ ("success", JBool false);
                               ("error", json_of_value (err_message err))
                             ]%string)))
        (finally_cleanup (tempPath_at_exit req))
  end.

End Server.

End DriveServer.

(** Did the provider fail a call of this trace? The trace is replayed from
    [before]; the answer is the error of the first call it rejected. *)
Definition reply_error (p : provider) (before : list event)
    (c : remote_call) : option js_error :=
  match c with
  | CloudinaryUpload path options =>
      match uploader_upload p before path options with
      | Throw e => Some e | Return _ => None
      end
  | DriveFilesList q fields =>
      match files_list p before q fields with
      | Throw e => Some e | Return _ => None
      end
  | DriveFilesCreate resource media fields =>
      match files_create p before resource media fields with
      | Throw e => Some e | Return _ => None
      end
  end.

Fixpoint first_failure (p : provider) (before t : list event)
  : option js_error :=
  match t with
  | [] => None
  | ev :: t' =>
      match ev with
      | Remote c =>
          match reply_error p before c with
          | Some e => Some e
          | None => first_failure p (before ++ [ev]) t'
          end
      | _ => first_failure p (before ++ [ev]) t'
      end
  end.

(** The value of a property of a JSON object. *)
Definition json_get (key : string) (v : json) : option json :=
  match v with
  | JObj fields => snd <$> find (fun kv => bool_decide (fst kv = key)) fields
  | _ => None
  end.

Definition json_keys (v : json) : list string :=
  match v with
  | JObj fields => map fst fields
  | _ => []
  end.


Definition statuses (t : list event) : list Z := map status (responses t).

(** The folder an upload call asks for. *)
Definition call_folder (c : remote_call) : option jsstring :=
  match c with
  | CloudinaryUpload _ options => Some (folder options)
  | _ => None
  end.

(** A property of the object a signing response carries. *)
Definition body_field (key : string) (r : SignFunction.netlify_response)
  : option json :=
  match SignFunction.body r with
  | SignFunction.JSON_stringify v => json_get key v
  end.

(** The environment variable [key] is set to the non-empty string [v]. *)
Definition env_has (env : gmap string jsstring) (key : string)
    (v : jsstring) : Prop :=
  env !! key = Some v /\ truthy v = true.

(** *** The provider's canonical string to sign

    Stated from the provider's rule rather than from the code: the
    parameters sorted by key, each written [key=value], joined with
    ampersands. *)
Fixpoint insert_by_key (p : string * jsstring)
    (l : list (string * jsstring)) : list (string * jsstring) :=
  match l with
  | [] => [p]
  | q :: l' =>
      if String.leb (fst p) (fst q) then p :: l
      else q :: insert_by_key p l'
  end.

Definition sort_by_key (l : list (string * jsstring))
  : list (string * jsstring) :=
  fold_right insert_by_key [] l.

Fixpoint join_ampersand (l : list jsstring) : jsstring :=
  match l with
  | [] => []
  | [x] => x
  | x :: l' => x ++ lit "&" ++ join_ampersand l'
  end.

Definition spec_canonical_query (params : list (string * jsstring))
  : jsstring :=
  join_ampersand
    (map (fun kv => lit (fst kv) ++ lit "=" ++ snd kv) (sort_by_key params)).

(** The two classes, as the sets of characters their expressions list. *)
Definition word_dash_chars : jsstring :=
  lit "ABCDEFGHIJKLMNOPQRSTUVWXYZabcdefghijklmnopqrstuvwxyz0123456789_-".

Definition alnum_chars : jsstring :=
  lit "ABCDEFGHIJKLMNOPQRSTUVWXYZabcdefghijklmnopqrstuvwxyz0123456789".

(** [c'] is what becomes of [c] when every code unit outside [chars] is
    replaced with an underscore. *)
Definition replaced_outside (chars : jsstring) (c c' : N) : Prop :=
  ((c ∈ chars) /\ c' = c) \/ ((c ∉ chars) /\ c' = underscore).

(** The response of the [catch] block of the Cloudinary upload handler. *)
Definition generic_failure (w : world) : response :=
  let id := CloudinaryServer.errorId (clock w) (random36 w) in
  Response 500
    (JObj [ ("success", JBool false);
            ("error", JStr (CloudinaryServer.generic_error id));
            ("id", JStr id) ]%string).

(** The success response of the signing function, given its values. *)
Definition signed_params (cloud key : jsstring) (ts : Z)
    (signature folder : jsstring) : SignFunction.netlify_response :=
  SignFunction.NetlifyResponse 200
    (SignFunction.JSON_stringify
       (JObj [ ("api_key", JStr key);
               ("timestamp", JNum (Int ts));
               ("signature", JStr signature);
               ("cloud_name", JStr cloud);
               ("folder", JStr folder) ]%string)).

(** ** Sample inputs *)

Module Sample.

Definition provider_error : js_error :=
  JsError (Some (lit "Error")) None
          (Some (lit "Invalid api_key 123456"))
          (Some (lit "Error: Invalid api_key 123456 at upload"))
          (lit "Error: Invalid api_key 123456").

Definition rejecting : provider :=
  Provider (fun _ _ _ => Throw provider_error)
           (fun _ _ _ => Throw provider_error)
           (fun _ _ _ _ => Throw provider_error).

Definition accepting : provider :=
  Provider (fun _ _ _ =>
              Return (UploadResult (Some (lit "wedding_photos/Ana/img"))
                                   (Some (lit "https://res.example/img"))))
           (fun _ _ _ => Return [lit "folder-1"])
           (fun _ _ _ _ =>
              Return (DriveFile (lit "file-1") (Some (lit "img.jpg")) None)).

Definition temp : jsstring := lit "uploads/3f9c2a".

Definition photo : upload_file :=
  UploadFile temp (Some (lit "img.jpg")) (lit "image/jpeg").

Definition guest (g : jsstring) : option form := Some (Form (Text g)).

Definition upload : request := Request (guest (lit "Ana & Luis-2")) (Some photo).


(** A request no parser took, and requests whose [guestName] was sent
    twice, or under the name [guestName[first]]. *)
Definition unparsed : request := Request None None.

Definition repeated_name : request :=
  Request (Some (Form (Other true (Some (lit "Ana,Luis"))))) (Some photo).

Definition bracketed_name : request :=
  Request (Some (Form (Other true None))) (Some photo).

Definition engine (t : type_error) : js_error :=
  let message :=
    match t with
    | PropertyOfUndefined p =>
        lit "Cannot read properties of undefined (reading '" ++ lit p
        ++ lit "')"
    | NotAFunction p => lit "guestName." ++ lit p ++ lit " is not a function"
    | NoPrimitiveValue => lit "Cannot convert object to primitive value"
    end in
  JsError (Some (lit "TypeError")) None (Some message)
          (Some (lit "TypeError: " ++ message ++ [10] ++ lit "    at server.js"))
          (lit "TypeError: " ++ message).

Definition host (p : provider) : world :=
  World {[ temp ]} 1700000000000 (lit "2023-11-14T22:13:20.000Z")
        (lit "0.4fzyo82mvyr") None (fun _ _ => None) engine p [].

Definition later (p : provider) : world :=
  World {[ temp ]} 1700000000999 (lit "2023-11-14T22:13:20.999Z")
        (lit "0.9k2") None (fun _ _ => None) engine p [].

(** A host whose file system refuses every deletion. *)
Definition busy : js_error :=
  JsError (Some (lit "Error")) (Some (lit "EBUSY"))
          (Some (lit "EBUSY: resource busy or locked, unlink 'uploads/3f9c2a'"))
          None
          (lit "Error: EBUSY: resource busy or locked, unlink 'uploads/3f9c2a'").

Definition locked (p : provider) : world :=
  World {[ temp ]} 1700000000000 (lit "2023-11-14T22:13:20.000Z")
        (lit "0.4fzyo82mvyr") None (fun _ _ => Some busy) engine p [].

Definition env : gmap string jsstring :=
  {[ "CLOUDINARY_CLOUD_NAME"%string := lit "demo";
     "CLOUDINARY_API_KEY"%string := lit "123456";
     "CLOUDINARY_API_SECRET"%string := lit "s3cret";
     "MAX_FILE_SIZE_MB"%string := lit "25" ]}.

Definition other_account : gmap string jsstring :=
  {[ "CLOUDINARY_CLOUD_NAME"%string := lit "other";
     "CLOUDINARY_API_KEY"%string := lit "999";
     "CLOUDINARY_API_SECRET"%string := lit "s3cret" ]}.

Definition dirname : jsstring := lit "/srv/app".

Definition auth : DriveServer.OAuth2Client :=
  DriveServer.OAuth2 (lit "client") (lit "hidden") (lit "http://localhost").

Definition query (g : jsstring) : SignFunction.netlify_event :=
  SignFunction.NetlifyEvent (Some {[ "guestName"%string := g ]}).

Definition size_error : js_error :=
  JsError (Some (lit "MulterError")) (Some (lit "LIMIT_FILE_SIZE"))
          (Some (lit "File too large")) None
          (lit "MulterError: File too large").

Definition field_error : js_error :=
  JsError (Some (lit "MulterError")) (Some (lit "LIMIT_UNEXPECTED_FILE"))
          (Some (lit "Unexpected field")) None
          (lit "MulterError: Unexpected field").

End Sample.

(** ** More of the two servers: start-up values, health route, credentials *)

(** [t] contains [key] as a substring. *)
Definition occurs (key t : jsstring) : Prop :=
  exists pre post, t = pre ++ key ++ post.

(** A test for it: the key is a prefix of the text from some position. *)
Definition occursb (key t : jsstring) : bool :=
  existsb (fun i => bool_decide (key `prefix_of` drop i t))
          (seq 0 (S (length t))).

(** [s.split(sep)] for a separator of one code unit: there is always at
    least one piece. *)
Fixpoint split_on (sep : N) (s : jsstring) : list jsstring :=
  match s with
  | [] => [[]]
  | c :: s' =>
      if c =? sep then [] :: split_on sep s'
      else
        match split_on sep s' with
        | piece :: pieces => (c :: piece) :: pieces
        | [] => [[c]]
        end
  end.

(** A decimal digit, and the number a run of decimal digits denotes,
    continuing from [a]. *)
Definition is_digit (c : N) : Prop := in_range 48 57 c = true.

Definition digits_value (a : N) (ds : jsstring) : N :=
  fold_left (fun a c => 10 * a + (c - 48)) ds a.

(** The digits a hexadecimal digest is written with. *)
Definition hex_digits : jsstring := lit "0123456789abcdef".

(** [a * b]: the product of two integers is rounded to the nearest
    double; zero times an infinity is [NaN]. *)
Definition num_mul (a b : jsnum) : jsnum :=
  match a, b with
  | Int x, Int y => to_double (x * y)
  | Int x, Infinity s | Infinity s, Int x =>
      if (x =? 0)%Z then NaN else Infinity (xorb s (x <? 0)%Z)
  | Infinity s, Infinity s' => Infinity (xorb s s')
  | _, _ => NaN
  end.

(** [new Error(message)] as the handlers read it (the stack is left out). *)
Definition new_Error (message : jsstring) : js_error :=
  JsError (Some (lit "Error")) None (Some message) None
          (lit "Error: " ++ message).

Module CloudinaryRoutes.

Section Routes.

Variable env : gmap string jsstring.

(** [MAX_FILE_SIZE_MB * 1024 * 1024], the limit handed to multer. *)
Definition MAX_FILE_SIZE : jsnum :=
  num_mul (num_mul (CloudinaryServer.MAX_FILE_SIZE_MB env) (Int 1024))
          (Int 1024).

(** [process.env.FRONTEND_ORIGIN && process.env.FRONTEND_ORIGIN.trim()] *)
Definition FRONTEND_ORIGIN : jsvalue :=
  match env !! "FRONTEND_ORIGIN"%string with
  | Some s => if truthy s then Some (trim s) else Some s
  | None => None
  end.

(** The origin CORS is restricted to; [None] is the unrestricted [cors()]. *)
Definition cors_origin : option jsstring :=
  if truthy_val FRONTEND_ORIGIN then FRONTEND_ORIGIN else None.

(** [app.get('/health', ...)] *)
Definition health : M unit :=
  send 200
    (JObj [ ("ok", JBool true);
            ("env", JObj [("frontend", string_or_null FRONTEND_ORIGIN)])
          ]%string).

End Routes.

End CloudinaryRoutes.

(** ** Loading the OAuth credentials of the Drive server *)

Module DriveStartup.

(** The three properties the loader reads from a credentials object. *)
Record client_conf := ClientConf {
  conf_client_id : jsvalue;
  conf_client_secret : jsvalue;
  conf_redirect_uris : option (list jsstring)
}.

(** A parsed credentials document: its [installed] and [web] members when
    they are objects, and its own top-level properties. *)
Record credentials := Credentials {
  installed : option client_conf;
  web : option client_conf;
  own : client_conf
}.

Definition no_conf : client_conf := ClientConf None None None.

Section Loader.

Variable env : gmap string jsstring.

(** [path.resolve(process.cwd(), p)] *)
Variable resolve : jsstring -> jsstring.

(** [JSON.parse(text)], read as a credentials document. *)
Variable parse : jsstring -> outcome credentials.

(** [JSON.parse(fs.readFileSync(path, { encoding: 'utf8' }))] *)
Variable read_and_parse : jsstring -> outcome credentials.

(** The paths that exist on disk. *)
Variable on_disk : gset jsstring.

Definition credentialsPath : jsstring :=
  or_else (env !! "GOOGLE_CREDENTIALS_PATH"%string) (lit "credentials.json").

Definition resolved : jsstring := resolve credentialsPath.

(** [(process.env.GOOGLE_REDIRECT_URIS || '').split(',').map(s => s.trim()).filter(Boolean)] *)
Definition redirects : list jsstring :=
  List.filter truthy
    (map trim (split_on 44 (or_else (env !! "GOOGLE_REDIRECT_URIS"%string) []))).

(** [GOOGLE_CREDENTIALS_JSON no es JSON válido: ] *)
Definition invalid_json_prefix : jsstring :=
  lit "GOOGLE_CREDENTIALS_JSON no es JSON v" ++ [225] ++ lit "lido: ".

Definition not_found_suffix : jsstring :=
  lit " no encontrado y variables de entorno de credenciales no proporcionadas".

(** [Credenciales inválidas (falta client_id/client_secret/redirect_uris)] *)
Definition invalid_credentials : jsstring :=
  lit "Credenciales inv" ++ [225]
  ++ lit "lidas (falta client_id/client_secret/redirect_uris)".

(** The branches taken when [GOOGLE_CREDENTIALS_JSON] is not set: the
    credentials file if it exists, else the discrete variables. *)
Definition from_file_or_variables : outcome credentials :=
  if bool_decide (resolved ∈ on_disk) then read_and_parse resolved
  else if truthy_val (env !! "GOOGLE_CLIENT_ID"%string)
          && truthy_val (env !! "GOOGLE_CLIENT_SECRET"%string)
  then Return (Credentials None
                 (Some (ClientConf (env !! "GOOGLE_CLIENT_ID"%string)
                          (env !! "GOOGLE_CLIENT_SECRET"%string)
                          (Some redirects)))
                 no_conf)
  else Throw (new_Error (resolved ++ not_found_suffix)).

(** The first part of the [try] block: where the credentials come from. *)
Definition find_credentials : outcome credentials :=
  match env !! "GOOGLE_CREDENTIALS_JSON"%string with
  | Some text =>
      if truthy text then
        match parse text with
        | Return c => Return c
        | Throw e =>
            Throw (new_Error (invalid_json_prefix
                              ++ to_String (err_message e)))
        end
      else from_file_or_variables
  | None => from_file_or_variables
  end.

(** [credentials.installed || credentials.web || credentials] *)
Definition conf_of (c : credentials) : client_conf :=
  match installed c with
  | Some conf => conf
  | None => match web c with
            | Some conf => conf
            | None => own c
            end
  end.

(** The second part: the validity check and the client. *)
Definition make_client (c : credentials) : outcome DriveServer.OAuth2Client :=
  let conf := conf_of c in
  match conf_client_id conf, conf_client_secret conf,
        conf_redirect_uris conf with
  | Some client_id, Some client_secret, Some (first :: _) =>
      if truthy client_id && truthy client_secret
      then Return (DriveServer.OAuth2 client_id client_secret first)
      else Throw (new_Error invalid_credentials)
  | _, _, _ => Throw (new_Error invalid_credentials)
  end.

(** The whole [try] block. *)
Definition load : outcome DriveServer.OAuth2Client :=
  match find_credentials with
  | Return c => make_client c
  | Throw e => Throw e
  end.

(** The module-level [oAuth2Client] once the [catch] has run: it stays
    [null] when the block threw. *)
Definition oAuth2Client : option DriveServer.OAuth2Client :=
  match load with
  | Return client => Some client
  | Throw _ => None
  end.

End Loader.

End DriveStartup.

(** More readings of a trace: the lines appended to files and what was
    passed to [next]. *)
Definition appended (t : list event) : list (jsstring * json) :=
  omap (fun e => match e with
                 | AppendFileSync p line => Some (p, line)
                 | _ => None
                 end) t.

Definition passed_on (t : list event) : list js_error :=
  omap (fun e => match e with Next err => Some err | _ => None end) t.

(** The uploads among the calls to Drive: the calls that carry a file. *)
Definition carries_media (c : remote_call) : bool :=
  match c with
  | DriveFilesCreate _ (Some _) _ => true
  | _ => false
  end.

(** The calls that create a folder. *)
Definition creates_folder (c : remote_call) : bool :=
  match c with
  | DriveFilesCreate _ None _ => true
  | _ => false
  end.

(** A sample provider with an empty drive: it finds nothing and creates
    what it is asked to, under an id made from the name. *)
Definition empty_drive : provider :=
  Provider (fun _ _ _ => Throw Sample.provider_error)
           (fun _ _ _ => Return [])
           (fun _ resource _ _ =>
              Return (DriveFile (lit "id-" ++ name resource) None None)).

(** The property names of the object a signing response carries. *)
Definition body_keys (r : SignFunction.netlify_response) : list string :=
  match SignFunction.body r with
  | SignFunction.JSON_stringify v => json_keys v
  end.

(** The signing function finds its three settings. *)
Definition sign_configured (env : gmap string jsstring) : bool :=
  truthy_val (SignFunction.CLOUD_NAME env)
  && truthy_val (SignFunction.API_KEY env)
  && truthy_val (SignFunction.API_SECRET env).

(** The loader is left with the discrete variables: no
    [GOOGLE_CREDENTIALS_JSON] and no credentials file. *)
Definition only_variables (env : gmap string jsstring)
    (resolve : jsstring -> jsstring) (on_disk : gset jsstring) : Prop :=
  (forall text, env !! "GOOGLE_CREDENTIALS_JSON"%string = Some text ->
                text = [])
  /\ (DriveStartup.resolved env resolve ∉ on_disk).

(** Sample settings of the Drive server. *)
Module DriveSample.

Definition variables : gmap string jsstring :=
  {[ "GOOGLE_CLIENT_ID"%string := lit "client";
     "GOOGLE_CLIENT_SECRET"%string := lit "hidden";
     "GOOGLE_REDIRECT_URIS"%string
       := lit " http://localhost:3000/oauth2callback " ]}.

Definition without_redirect : gmap string jsstring :=
  {[ "GOOGLE_CLIENT_ID"%string := lit "client";
     "GOOGLE_CLIENT_SECRET"%string := lit "hidden";
     "GOOGLE_REDIRECT_URIS"%string := lit " , ," ]}.

Definition broken_json : gmap string jsstring :=
  <[ "GOOGLE_CREDENTIALS_JSON"%string := lit "{oops" ]> variables.

Definition resolve (p : jsstring) : jsstring := lit "/srv/app/" ++ p.

Definition syntax_error : js_error :=
  JsError (Some (lit "SyntaxError")) None
          (Some (lit "Unexpected token o in JSON at position 1")) None
          (lit "SyntaxError: Unexpected token o in JSON at position 1").

Definition parse (text : jsstring) : outcome DriveStartup.credentials :=
  Throw syntax_error.

End DriveSample.

(** ** The OAuth callback of the Drive server and the stored token *)

Module DriveAuth.

(** The token pair the provider issues. *)
Record tokens := Tokens {
  access_token : jsvalue;
  refresh_token : jsvalue;
  expiry_date : option Z
}.

(** What [token.json] holds: the JSON text of a token, or something that
    does not parse. *)
Inductive token_text :=
| JSON_of (t : tokens)
| Unparsable.

(** The client's credentials in memory and the token file on disk. *)
Record auth_state := AuthState {
  credentials : option tokens;
  token_file : option token_text
}.

(** A plain-text response: [res.status(code).send(text)]. *)
Record text_reply := TextReply { reply_status : Z; reply_text : jsstring }.

Section Callback.

(** The module-level client, [null] when no credentials loaded. *)
Variable oAuth2Client : option DriveServer.OAuth2Client.

(** [await oAuth2Client.getToken(code)], projected on [tokens]. *)
Variable getToken : jsstring -> outcome tokens.

(** What [fs.writeFileSync("token.json", ...)] throws, if it does. *)
Variable write_fault : option js_error.

(** [✅ Autenticación completada. Puedes cerrar esta pestaña.] *)
Definition completed : jsstring :=
  [9989] ++ lit " Autenticaci" ++ [243]
  ++ lit "n completada. Puedes cerrar esta pesta" ++ [241] ++ lit "a.".

(** [❌ Error al autenticar] *)
Definition failed : jsstring := [10060] ++ lit " Error al autenticar".

(** [Código de autorización faltante] *)
Definition code_missing : jsstring :=
  lit "C" ++ [243] ++ lit "digo de autorizaci" ++ [243] ++ lit "n faltante".

(** The statements of the [try] block once the two guards have passed;
    a thrown error leaves the state as it is at that point. *)
Definition exchange (code : jsstring) (st : auth_state)
  : outcome text_reply * auth_state :=
  match getToken code with
  | Throw e => (Throw e, st)
  | Return t =>
      let st' := AuthState (Some t) (token_file st) in
      match write_fault with
      | Some e => (Throw e, st')
      | None =>
          (Return (TextReply 200 completed),
           AuthState (Some t) (Some (JSON_of t)))
      end
  end.

(** [app.get("/oauth2callback", async (req, res) => ...)], with
    [req.query.code]. *)
Definition oauth2callback (code : jsvalue) (st : auth_state)
  : text_reply * auth_state :=
  match oAuth2Client with
  | None =>
      (TextReply 500 (lit "OAuth no configurado. No hay credentials.json"), st)
  | Some _ =>
      match code with
      | Some c =>
          if truthy c then
            match exchange c st with
            | (Return reply, st') => (reply, st')
            | (Throw _, st') => (TextReply 500 failed, st')
            end
          else (TextReply 400 code_missing, st)
      | None => (TextReply 400 code_missing, st)
      end
  end.

(** The start-up step that reads [token.json]: only with a client, only
    if the file exists, and a file that does not parse is skipped. *)
Definition load_token (st : auth_state) : auth_state :=
  match oAuth2Client, token_file st with
  | Some _, Some (JSON_of t) => AuthState (Some t) (token_file st)
  | _, _ => st
  end.

End Callback.

End DriveAuth.

(** * Properties *)

(** ** Sanitizing *)

Section Replace.

Variable class : N -> bool.
Variable r : N.

Lemma replace_outside_length s :
  length (replace_outside class r s) = length s.
Proof. unfold replace_outside. apply length_map. Qed.

Lemma replace_outside_nil s :
  replace_outside class r s = [] <-> s = [].
Proof. destruct s; simpl; split; congruence. Qed.

Lemma replace_outside_fixed c :
  let f c := if class c then c else r in f (f c) = f c.
Proof.
  simpl. destruct (class c) eqn:Hc.
  - now rewrite Hc.
  - now destruct (class r).
Qed.

Lemma replace_outside_idem s :
  replace_outside class r (replace_outside class r s) =
  replace_outside class r s.
Proof.
  induction s as [|c s IH]; simpl; [reflexivity|].
  f_equal; [apply replace_outside_fixed | exact IH].
Qed.

End Replace.

Lemma class_below (class : N -> bool) (chars : jsstring) (bound : nat) :
  forallb (fun n => Bool.eqb (class (N.of_nat n))
                             (bool_decide (N.of_nat n ∈ chars)))
          (seq 0 bound) = true ->
  forall c, c < N.of_nat bound ->
  class c = bool_decide (c ∈ chars).
Proof.
  intros Hall c Hc.
  rewrite forallb_forall in Hall.
  specialize (Hall (N.to_nat c)).
  rewrite N2Nat.id in Hall.
  apply Bool.eqb_prop, Hall, in_seq. lia.
Qed.

Lemma class_word_dash_spec c :
  class_word_dash c = bool_decide (c ∈ word_dash_chars).
Proof.
  destruct (N.ltb_spec c 123) as [Hlt|Hge].
  - apply (class_below class_word_dash word_dash_chars 123);
      [vm_compute; reflexivity | exact Hlt].
  - assert (Hout : class_word_dash c = false).
    { unfold class_word_dash, is_alnum, in_range.
      repeat match goal with
             | |- context [?a <=? ?b] => destruct (N.leb_spec a b); try lia
             | |- context [?a =? ?b] => destruct (N.eqb_spec a b); try lia
             end; reflexivity. }
    rewrite Hout. symmetry. apply bool_decide_eq_false.
    intros Hin.
    assert (Hall : Forall (fun x => x < 123) word_dash_chars).
    { apply (bool_decide_unpack _). vm_compute. exact I. }
    rewrite Forall_forall in Hall. specialize (Hall c Hin). lia.
Qed.

Lemma class_alnum_spec c :
  class_alnum c = bool_decide (c ∈ alnum_chars).
Proof.
  destruct (N.ltb_spec c 123) as [Hlt|Hge].
  - apply (class_below class_alnum alnum_chars 123);
      [vm_compute; reflexivity | exact Hlt].
  - assert (Hout : class_alnum c = false).
    { unfold class_alnum, is_alnum, in_range.
      repeat match goal with
             | |- context [?a <=? ?b] => destruct (N.leb_spec a b); try lia
             end; reflexivity. }
    rewrite Hout. symmetry. apply bool_decide_eq_false.
    intros Hin.
    assert (Hall : Forall (fun x => x < 123) alnum_chars).
    { apply (bool_decide_unpack _). vm_compute. exact I. }
    rewrite Forall_forall in Hall. specialize (Hall c Hin). lia.
Qed.

Lemma replace_outside_Forall2 (class : N -> bool) (chars : jsstring) s :
  (forall c, class c = bool_decide (c ∈ chars)) ->
  Forall2 (replaced_outside chars) s (replace_outside class underscore s).
Proof.
  intros Hclass. induction s as [|c s IH]; simpl; constructor; [|exact IH].
  unfold replaced_outside. rewrite Hclass.
  case_bool_decide; [left | right]; split; auto.
Qed.

(** What the signing function reads from the query string. *)
Lemma sign_guestName_trim ev g :
  SignFunction.qs ev !! "guestName"%string = Some g ->
  SignFunction.guestName ev = trim g.
Proof.
  intros Hg. unfold SignFunction.guestName. rewrite Hg.
  destruct g; reflexivity.
Qed.


Lemma or_else_truthy g d : truthy g = true -> or_else (Some g) d = g.
Proof. intros H. unfold or_else. now rewrite H. Qed.

Lemma truthy_nonempty g : truthy g = true <-> g <> [].
Proof. destruct g; simpl; split; congruence. Qed.

Lemma sign_sanitize_eq s :
  SignFunction.sanitize s = replace_outside class_word_dash underscore s.
Proof. unfold SignFunction.sanitize. now destruct s. Qed.

#[local] Arguments lit : simpl never.
#[local] Arguments int_toString : simpl never.
#[local] Arguments sha1_hex : simpl never.
#[local] Arguments slice : simpl never.
#[local] Arguments trim : simpl never.
#[local] Set Warnings "-clear-no-such-hyp".

(** The segment of the signing function, from the trimmed name. *)
Lemma sign_sanitized_cases ev :
  (SignFunction.guestName ev = []
   /\ SignFunction.sanitized ev = lit "anonymous")
  \/ (SignFunction.guestName ev <> []
      /\ SignFunction.sanitized ev =
         replace_outside class_word_dash underscore (SignFunction.guestName ev)).
Proof.
  unfold SignFunction.sanitized. rewrite sign_sanitize_eq.
  destruct (SignFunction.guestName ev) as [|c s] eqn:Hg.
  - left. split; reflexivity.
  - right. split; [discriminate | reflexivity].
Qed.

(** C1, as the code has it. In the Cloudinary upload handler the segment is
    the guest name with every code unit outside [A-Za-z0-9_-] replaced with
    an underscore, the others kept, position by position, so the length is
    the same. The Drive upload handler does the same with the class
    [A-Za-z0-9]: a dash is replaced too and an underscore is replaced with
    itself. The signing function trims the name first: the segment is the
    placeholder when nothing is left, and otherwise the trimmed name with
    every code unit outside [A-Za-z0-9_-] replaced. *)
Theorem sanitized_segment_by_variant
    (g : jsstring) (ev : SignFunction.netlify_event) :
  SignFunction.qs ev !! "guestName"%string = Some g ->
  (Forall2 (replaced_outside word_dash_chars) g (CloudinaryServer.sanitized g)
   /\ length (CloudinaryServer.sanitized g) = length g)
  /\ (Forall2 (replaced_outside alnum_chars) g (DriveServer.sanitizedName g)
      /\ length (DriveServer.sanitizedName g) = length g)
  /\ ((trim g = [] /\ SignFunction.sanitized ev = lit "anonymous")
      \/ (trim g <> []
          /\ Forall2 (replaced_outside word_dash_chars) (trim g)
                     (SignFunction.sanitized ev)
          /\ length (SignFunction.sanitized ev) = length (trim g))).
Proof.
  intros Hq. repeat split.
  - apply replace_outside_Forall2, class_word_dash_spec.
  - apply replace_outside_length.
  - apply replace_outside_Forall2, class_alnum_spec.
  - apply replace_outside_length.
  - rewrite <- (sign_guestName_trim ev g Hq).
    destruct (sign_sanitized_cases ev) as [[Hn Hs]|[Hn Hs]].
    + left. split; assumption.
    + right. rewrite Hs. split; [assumption|]. split.
      * apply replace_outside_Forall2, class_word_dash_spec.
      * apply replace_outside_length.
Qed.

Lemma sanitized_segment_by_variant_witness :
  length (CloudinaryServer.sanitized (lit " a-b c")) = 6%nat
  /\ length (SignFunction.sanitized (Sample.query (lit " a-b c"))) = 5%nat.
Proof.
  destruct (sanitized_segment_by_variant (lit " a-b c")
              (Sample.query (lit " a-b c")) eq_refl)
    as [[_ Hc] [_ [[Hn _]|[_ [_ Hs]]]]].
  - vm_compute in Hn. discriminate Hn.
  - split; [exact Hc | exact Hs].
Defined.

(** C1 as stated fails: the Drive handler replaces a dash, and the signing
    function does not keep the length of a name with outer white space. *)
Lemma sanitized_claim_fails_for_drive_and_sign :
  ~ Forall2 (replaced_outside word_dash_chars) (lit "a-b")
            (DriveServer.sanitizedName (lit "a-b"))
  /\ length (SignFunction.sanitized (Sample.query (lit " a")))
     <> length (lit " a").
Proof.
  split.
  - intros H.
    apply Forall2_cons_1 in H as [_ H].
    apply Forall2_cons_1 in H as [[[_ H]|[H _]] _].
    + vm_compute in H. discriminate H.
    + apply H. apply (bool_decide_unpack _). vm_compute. exact I.
  - vm_compute. discriminate.
Qed.

(** C9. Sanitizing twice is sanitizing once, in the three programs: what
    the first pass produces is made of code units the expression keeps, or
    of underscores, which it replaces with underscores. *)
Theorem sanitize_idempotent (s : jsstring) :
  CloudinaryServer.sanitized (CloudinaryServer.sanitized s)
    = CloudinaryServer.sanitized s
  /\ SignFunction.sanitize (SignFunction.sanitize s) = SignFunction.sanitize s
  /\ DriveServer.sanitizedName (DriveServer.sanitizedName s)
     = DriveServer.sanitizedName s
  /\ Forall (fun c => class_word_dash c = true) (CloudinaryServer.sanitized s)
  /\ Forall (fun c => class_word_dash c = true) (SignFunction.sanitize s)
  /\ Forall (fun c => class_alnum c = true \/ c = underscore)
            (DriveServer.sanitizedName s).
Proof.
  repeat split.
  - apply replace_outside_idem.
  - rewrite !sign_sanitize_eq. apply replace_outside_idem.
  - apply replace_outside_idem.
  - unfold CloudinaryServer.sanitized, replace_outside.
    apply Forall_fmap, Forall_true. intros c. simpl.
    destruct (class_word_dash c) eqn:Hc; [exact Hc | reflexivity].
  - rewrite sign_sanitize_eq. unfold replace_outside.
    apply Forall_fmap, Forall_true. intros c. simpl.
    destruct (class_word_dash c) eqn:Hc; [exact Hc | reflexivity].
  - unfold DriveServer.sanitizedName, replace_outside.
    apply Forall_fmap, Forall_true. intros c. simpl.
    destruct (class_alnum c) eqn:Hc; [left; exact Hc | right; reflexivity].
Qed.

(** ** Printing and parsing integers *)

Lemma digits_value_app a ds d :
  digits_value a (ds ++ [d]) = 10 * digits_value a ds + (d - 48).
Proof. unfold digits_value. now rewrite fold_left_app. Qed.

Lemma digit_char_decimal d :
  d < 10 -> is_digit (digit_char d) /\ digit_char d - 48 = d.
Proof.
  intros Hd. unfold is_digit, digit_char, in_range.
  destruct (N.ltb_spec d 10); [|lia].
  split; [|lia].
  apply andb_true_intro. split; apply N.leb_le; lia.
Qed.

Lemma digits_fuel_decimal fuel : forall n acc,
  fuel <> O -> n < 10 ^ N.of_nat fuel ->
  exists ds,
    digits_fuel fuel 10 n acc = ds ++ acc
    /\ ds <> [] /\ Forall is_digit ds /\ digits_value 0 ds = n.
Proof.
  induction fuel as [|fuel IH]; intros n acc Hfuel Hn; [congruence|].
  simpl digits_fuel.
  assert (Hmod : n mod 10 < 10) by (apply N.mod_lt; lia).
  destruct (digit_char_decimal _ Hmod) as [Hdig Hval].
  destruct (N.eqb_spec (n / 10) 0) as [Hq|Hq].
  - exists [digit_char (n mod 10)]. repeat split.
    + discriminate.
    + constructor; [exact Hdig | constructor].
    + unfold digits_value. simpl fold_left. rewrite Hval.
      pose proof (N.div_mod n 10). lia.
  - assert (Hfuel' : fuel <> O).
    { intros ->. simpl in Hn. apply Hq. apply N.div_small. lia. }
    assert (Hn' : n / 10 < 10 ^ N.of_nat fuel).
    { apply N.Div0.div_lt_upper_bound.
      replace (N.of_nat (S fuel)) with (N.succ (N.of_nat fuel)) in Hn by lia.
      rewrite N.pow_succ_r' in Hn. exact Hn. }
    destruct (IH (n / 10) (digit_char (n mod 10) :: acc) Hfuel' Hn')
      as (ds & Heq & Hne & Hall & Hv).
    exists (ds ++ [digit_char (n mod 10)]). repeat split.
    + rewrite Heq, <- app_assoc. reflexivity.
    + destruct ds; discriminate.
    + apply Forall_app. split; [exact Hall | constructor; [exact Hdig|constructor]].
    + rewrite digits_value_app, Hv, Hval.
      pose proof (N.div_mod n 10). lia.
Qed.

Lemma digits_decimal n :
  exists ds, digits 10 n = ds /\ ds <> [] /\ Forall is_digit ds
             /\ digits_value 0 ds = n.
Proof.
  unfold digits.
  destruct (digits_fuel_decimal (S (N.to_nat (N.log2 n))) n []) as
    (ds & Heq & Hne & Hall & Hv).
  - discriminate.
  - destruct (N.eq_dec n 0) as [->|Hpos]; [reflexivity|].
    replace (N.of_nat (S (N.to_nat (N.log2 n)))) with (N.succ (N.log2 n))
      by lia.
    destruct (N.log2_spec n) as [_ Hlt]; [lia|].
    eapply N.lt_le_trans; [exact Hlt|].
    apply N.pow_le_mono_l. lia.
  - exists ds. rewrite app_nil_r in Heq. auto.
Qed.

Lemma parse_digits_all ds : forall a,
  Forall is_digit ds ->
  parse_digits ds (Some a)
  = Some (fold_left (fun a c => (10 * a + Z.of_N (c - 48))%Z) ds a).
Proof.
  induction ds as [|c ds IH]; intros a Hall; [reflexivity|].
  inversion Hall as [|? ? Hc Hrest]; subst.
  simpl. unfold is_digit in Hc. rewrite Hc. rewrite IH by assumption.
  reflexivity.
Qed.

Lemma digits_value_Z ds : forall a,
  fold_left (fun a c => (10 * a + Z.of_N (c - 48))%Z) ds (Z.of_N a)
  = Z.of_N (digits_value a ds).
Proof.
  induction ds as [|c ds IH]; intros a; [reflexivity|].
  unfold digits_value. simpl.
  replace (10 * Z.of_N a + Z.of_N (c - 48))%Z
    with (Z.of_N (10 * a + (c - 48))) by lia.
  apply IH.
Qed.

Lemma parse_digits_digits n :
  parse_digits (digits 10 n) None = Some (Z.of_N n).
Proof.
  destruct (digits_decimal n) as (ds & -> & Hne & Hall & Hv).
  destruct ds as [|c ds]; [congruence|].
  inversion Hall as [|? ? Hc Hrest]; subst.
  simpl. unfold is_digit in Hc. rewrite Hc.
  rewrite parse_digits_all by assumption.
  change (10 * 0 + Z.of_N (c - 48))%Z with (Z.of_N (c - 48)).
  rewrite digits_value_Z. reflexivity.
Qed.

Lemma digits_head n :
  match digits 10 n with
  | [] => False
  | c :: _ => is_digit c
  end.
Proof.
  destruct (digits_decimal n) as (ds & -> & Hne & Hall & _).
  destruct ds; [congruence|]. now inversion Hall.
Qed.

(** Parsing the decimal writing of an integer gives the double nearest to
    the integer. *)
Lemma parseInt10_int_toString z :
  parseInt10 (int_toString 10 z) = to_double z.
Proof.
  destruct z as [|p|p]; [reflexivity| |].
  - unfold int_toString, parseInt10.
    pose proof (digits_head (N.pos p)) as Hhead.
    pose proof (parse_digits_digits (N.pos p)) as Hparse.
    destruct (digits 10 (N.pos p)) as [|c ds] eqn:Hd; [contradiction|].
    assert (Hsp : is_space c = false).
    { unfold is_digit, in_range in Hhead.
      apply andb_prop in Hhead as [H1%N.leb_le H2%N.leb_le].
      unfold is_space, in_range.
      repeat match goal with
             | |- context [?a <=? ?b] => destruct (N.leb_spec a b); try lia
             | |- context [?a =? ?b] => destruct (N.eqb_spec a b); try lia
             end; reflexivity. }
    simpl trimStart. rewrite Hsp.
    assert (c <> 45 /\ c <> 43) as [H45 H43].
    { unfold is_digit, in_range in Hhead.
      apply andb_prop in Hhead as [H1%N.leb_le H2%N.leb_le]. lia. }
    destruct c as [|q]; [rewrite Hparse; f_equal; lia|].
    repeat (destruct q as [q|q|]; try congruence;
            try (rewrite Hparse; f_equal; lia)).
  - unfold int_toString, parseInt10.
    change (lit "-" ++ digits 10 (N.pos p)) with (45 :: digits 10 (N.pos p)).
    simpl trimStart.
    change (is_space 45) with false. cbv iota.
    rewrite parse_digits_digits. f_equal.
Qed.


(** ** Doubles that are integers *)

Lemma log2_below_53 n : n < 2 ^ 53 -> N.log2 n - 52 = 0.
Proof.
  intros Hn. destruct (N.eq_dec n 0) as [->|Hpos]; [reflexivity|].
  assert (N.log2 n < 53) by (apply N.log2_lt_pow2; lia). lia.
Qed.

(** An integer below 2^53 is a double. *)
Lemma round_small n : n < 2 ^ 53 -> round_to_double n = n.
Proof.
  intros Hn. unfold round_to_double. rewrite (log2_below_53 n Hn).
  change (2 ^ 0) with 1. change (2 ^ (0 - 1)) with 1.
  rewrite N.div_1_r, N.mod_1_r. simpl. lia.
Qed.

(** A multiple of a power of two whose other factor is at most 2^53 is a
    double. *)
Lemma round_scaled a k : a <= 2 ^ 53 -> round_to_double (a * 2 ^ k) = a * 2 ^ k.
Proof.
  intros Ha. destruct (N.eq_dec a 0) as [->|Hpos]; [reflexivity|].
  unfold round_to_double.
  set (e := N.log2 (a * 2 ^ k) - 52).
  assert (Hdiv : exists c, a * 2 ^ k = c * 2 ^ e).
  { assert (Hlog : N.log2 (a * 2 ^ k) = k + N.log2 a)
      by (apply N.log2_mul_pow2; lia).
    destruct (N.le_gt_cases (N.log2 a) 52) as [Hle|Hgt].
    - exists (a * 2 ^ (k - e)).
      rewrite <- N.mul_assoc, <- N.pow_add_r. do 2 f_equal. lia.
    - assert (Ha' : a = 2 ^ 53).
      { apply N.le_antisymm; [exact Ha|].
        apply N.log2_le_pow2; lia. }
      exists (2 ^ 52). subst a. rewrite <- !N.pow_add_r. f_equal.
      change (N.log2 (2 ^ 53)) with 53 in Hlog. lia. }
  destruct Hdiv as [c Hc]. rewrite Hc.
  assert (He : 2 ^ e <> 0) by (apply N.pow_nonzero; discriminate).
  rewrite N.div_mul, N.Div0.mod_mul by exact He.
  assert (Hhalf : 0 < 2 ^ (e - 1)).
  { assert (2 ^ (e - 1) <> 0) by (apply N.pow_nonzero; discriminate). lia. }
  replace (2 ^ (e - 1) <? 0) with false by (symmetry; apply N.ltb_ge; lia).
  replace (0 =? 2 ^ (e - 1)) with false by (symmetry; apply N.eqb_neq; lia).
  reflexivity.
Qed.

(** Rounding does not go below 2^53 from above it. *)
Lemma round_large v : 2 ^ 53 <= v -> 2 ^ 53 <= round_to_double v.
Proof.
  intros Hv. unfold round_to_double.
  set (e := N.log2 v - 52).
  assert (Hpos : 0 < v) by (assert (0 < 2 ^ 53) by reflexivity; lia).
  assert (Hlog : 53 <= N.log2 v) by (apply N.log2_le_pow2; lia).
  destruct (N.log2_spec v Hpos) as [Hlo _].
  assert (He : 2 ^ e <> 0) by (apply N.pow_nonzero; discriminate).
  assert (Hq : 2 ^ 52 <= v / 2 ^ e).
  { apply N.div_le_lower_bound; [exact He|].
    rewrite <- N.pow_add_r. replace (e + 52) with (N.log2 v) by lia.
    exact Hlo. }
  assert (Hpow : 2 ^ 53 <= 2 ^ 52 * 2 ^ e).
  { rewrite <- N.pow_add_r. apply N.pow_le_mono_r; lia. }
  eapply N.le_trans; [exact Hpow|].
  apply N.mul_le_mono_r.
  destruct (_ || _); lia.
Qed.

(** Below 2^53 a double is denoted by one integer only, itself. *)
Lemma round_small_inv n v : n < 2 ^ 53 -> round_to_double v = n -> v = n.
Proof.
  intros Hn Hv. destruct (N.lt_ge_cases v (2 ^ 53)) as [Hlt|Hge].
  - rewrite round_small in Hv; assumption.
  - pose proof (round_large v Hge). lia.
Qed.

Lemma nearest_multiple_small n p v :
  n < 2 ^ 53 -> nearest_multiple n p = Some v -> v = n.
Proof.
  intros Hn. unfold nearest_multiple.
  destruct (N.eqb_spec (round_to_double (n / p * p)) n) as [Hlo|Hlo];
    destruct (N.eqb_spec (round_to_double (n / p * p + p)) n) as [Hhi|Hhi];
    try discriminate.
  - apply (round_small_inv n _ Hn) in Hlo, Hhi.
    intros H. injection H as <-.
    repeat match goal with |- context [if ?b then _ else _] => destruct b end;
      assumption.
  - intros H. injection H as <-. exact (round_small_inv n _ Hn Hlo).
  - intros H. injection H as <-. exact (round_small_inv n _ Hn Hhi).
Qed.

Lemma shortest_from_small n e : n < 2 ^ 53 -> shortest_from n e = n.
Proof.
  intros Hn. induction e as [|e IH]; simpl.
  - destruct (nearest_multiple n _) as [v|] eqn:Hv; [|reflexivity].
    exact (nearest_multiple_small n _ v Hn Hv).
  - destruct (nearest_multiple n _) as [v|] eqn:Hv; [|exact IH].
    exact (nearest_multiple_small n _ v Hn Hv).
Qed.

(** The integers up to 2^53 are printed with all their digits. *)
Lemma shortest_safe n : n <= 2 ^ 53 -> shortest n = n.
Proof.
  intros Hn. destruct (N.eq_dec n (2 ^ 53)) as [->|Hne].
  - vm_compute. reflexivity.
  - apply shortest_from_small. lia.
Qed.

Lemma digits_fuel_length fuel : forall (k : nat) n acc,
  n < 10 ^ N.of_nat (S k) ->
  (length (digits_fuel fuel 10 n acc) <= S k + length acc)%nat.
Proof.
  induction fuel as [|fuel IH]; intros k n acc Hn; simpl; [lia|].
  destruct (N.eqb_spec (n / 10) 0) as [Hq|Hq]; [simpl; lia|].
  destruct k as [|k].
  - exfalso. apply Hq. apply N.div_small. exact Hn.
  - specialize (IH k (n / 10) (digit_char (n mod 10) :: acc)).
    simpl length in IH. rewrite Nat.add_succ_r in IH. apply IH.
    apply N.Div0.div_lt_upper_bound.
    replace (N.of_nat (S (S k))) with (N.succ (N.of_nat (S k))) in Hn by lia.
    rewrite N.pow_succ_r' in Hn. exact Hn.
Qed.

Lemma digits_length_safe n :
  n <= 2 ^ 53 -> (length (digits 10 n) <= 21)%nat.
Proof.
  intros Hn. unfold digits.
  pose proof (digits_fuel_length (S (N.to_nat (N.log2 n))) 20 n []) as H.
  simpl length in H. rewrite Nat.add_0_r in H. apply H.
  eapply N.le_lt_trans; [exact Hn|]. reflexivity.
Qed.

Lemma num_toString_safe z :
  (- 2 ^ 53 <= z <= 2 ^ 53)%Z -> num_toString (Int z) = int_toString 10 z.
Proof.
  intros Hz.
  assert (Hnat : forall p, N.pos p <= 2 ^ 53 ->
                           natural_toString (N.pos p) = digits 10 (N.pos p)).
  { intros p Hp. unfold natural_toString. rewrite (shortest_safe _ Hp).
    pose proof (digits_length_safe _ Hp) as Hlen.
    apply Nat.leb_le in Hlen. now rewrite Hlen. }
  destruct z as [|p|p]; unfold num_toString, int_toString;
    [reflexivity | |]; rewrite Hnat; try reflexivity.
  - change (2 ^ 53)%Z with (Z.of_N (2 ^ 53)) in Hz. lia.
  - change (2 ^ 53)%Z with (Z.of_N (2 ^ 53)) in Hz. lia.
Qed.

(** An integer times a power of two is a double when the integer is at most
    2^53 in absolute value and the product is not too large. *)
Lemma to_double_scaled z k :
  (- 2 ^ 53 <= z <= 2 ^ 53)%Z -> k <= 970 ->
  to_double (z * 2 ^ Z.of_N k) = Int (z * 2 ^ Z.of_N k).
Proof.
  intros Hz Hk. unfold to_double.
  assert (Habs : Z.abs_N (z * 2 ^ Z.of_N k) = Z.abs_N z * 2 ^ k).
  { rewrite Zabs2N.inj_mul. f_equal.
    rewrite <- (N2Z.id (2 ^ k)). rewrite N2Z.inj_pow.
    change (Z.of_N 2) with 2%Z.
    rewrite Zabs2N.abs_N_nonneg; [reflexivity|].
    apply Z.pow_nonneg. lia. }
  assert (Ha : Z.abs_N z <= 2 ^ 53).
  { change (2 ^ 53)%Z with (Z.of_N (2 ^ 53)) in Hz. lia. }
  rewrite Habs, (round_scaled _ k Ha).
  assert (Hlt : Z.abs_N z * 2 ^ k < 2 ^ 1024).
  { apply N.le_lt_trans with (2 ^ 53 * 2 ^ 970).
    - apply N.mul_le_mono; [exact Ha|]. apply N.pow_le_mono_r; lia.
    - reflexivity. }
  apply N.ltb_lt in Hlt. rewrite Hlt. f_equal.
  rewrite <- Habs, N2Z.inj_abs_N.
  rewrite Z.mul_comm. apply Z.abs_sgn.
Qed.

Lemma to_double_safe z :
  (- 2 ^ 53 <= z <= 2 ^ 53)%Z -> to_double z = Int z.
Proof.
  intros Hz. pose proof (to_double_scaled z 0 Hz) as H.
  change (2 ^ Z.of_N 0)%Z with 1%Z in H. rewrite Z.mul_1_r in H.
  apply H. lia.
Qed.

(** ** The Cloudinary upload handler *)

(** Literals stay folded in the runs below. *)
#[local] Opaque lit.

Ltac case_exists :=
  match goal with
  | |- context [bool_decide (?p ∈ ?s)] =>
      destruct (decide (p ∈ s));
      [ rewrite !(bool_decide_eq_true_2 (p ∈ s)) by assumption
      | rewrite !(bool_decide_eq_false_2 (p ∈ s)) by assumption ]
  end.

Ltac host_unfold :=
  unfold bind, try_catch, try_finally, existsSync, unlinkSync,
    appendFileSync, console_error, ret, throw, raise, send, next, log,
    Date_now, Date_toISOString, Math_random_toString36, cloudinary_upload,
    drive_files_list, drive_files_create, emit, set_files; simpl.

(** One more step of a run: the file is there or not, the file system
    deletes it or refuses to. A deleted file is not there. *)
Ltac file_step :=
  match goal with
  | |- context [bool_decide (?p ∈ ?s)] =>
      destruct (decide (p ∈ s));
      [ rewrite !(bool_decide_eq_true_2 (p ∈ s)) by assumption
      | rewrite !(bool_decide_eq_false_2 (p ∈ s)) by assumption ];
      try match goal with
          | H : ?q ∈ _ ∖ {[?q]} |- _ => exfalso; clear -H; set_solver
          end
  | |- context [unlink_faults ?w ?t ?p] =>
      let H := fresh "Hunlink" in
      destruct (unlink_faults w t p) as [?refusal|] eqn:H
  end.

Lemma body_guestName_Some req g :
  body_guestName req = Some g <-> req_body req = Some (Form (Text g)).
Proof.
  unfold body_guestName.
  destruct (req_body req) as [[[|s|b text]]|]; split; congruence.
Qed.

(** The runs of the upload handler, case by case: the body, the guest name,
    the file, the provider's answer, the log, the disk. The run is named
    first, so that it is analysed once. *)
Ltac cloudinary_cases req w :=
  unfold result, serve;
  match goal with
  | |- context [CloudinaryServer.upload_handler ?env ?dir req (fresh w)] =>
      let run := fresh "run" in
      let Hrun := fresh "Hrun" in
      remember (CloudinaryServer.upload_handler env dir req (fresh w))
        as run eqn:Hrun;
      revert Hrun
  end;
  unfold fresh, CloudinaryServer.upload_handler;
  let v := fresh "v" in
  let g := fresh "g" in
  let file := fresh "file" in
  let Hb := fresh "Hb" in
  let Ht := fresh "Ht" in
  let Hf := fresh "Hf" in
  let Hup := fresh "Hup" in
  let Hfault := fresh "Hfault" in
  let Hp := fresh "Hp" in
  destruct (req_body req) as [[v]|] eqn:Hb;
    [ destruct v as [|g|[|] [?text|]];
      unfold field_or_empty; simpl;
      try (destruct (truthy g) eqn:Ht; simpl; rewrite ?Ht);
      host_unfold;
      try (destruct (req_file req) as [file|] eqn:Hf; host_unfold;
           [ unfold replace_receiver; host_unfold;
             try (destruct (uploader_upload (remote w) [] (file_path file)
                              (CloudinaryServer.upload_call_options _ g))
                    as [?res|?err] eqn:Hup);
             unfold CloudinaryServer.on_upload_error,
               CloudinaryServer.logEntry, CloudinaryServer.cleanup,
               field_string_or_null;
             host_unfold; rewrite ?Hb; simpl; rewrite ?Ht; host_unfold;
             try (destruct (append_fault w) eqn:Hfault; host_unfold);
             try (destruct (truthy (file_path file)) eqn:Hp; host_unfold;
                  repeat (file_step; host_unfold))
           | ])
    | host_unfold ];
  intros ->; simpl;
  repeat match goal with
         | H : unlink_faults _ _ _ = _ |- _ => rewrite H; simpl
         end.

Section CloudinaryRuns.

Variable env : gmap string jsstring.
Variable dirname : jsstring.

Let handler := CloudinaryServer.upload_handler env dirname.

(** A run in which the provider rejected a call is a run that passed both
    guards and whose upload call was rejected. *)
Lemma cloudinary_failure_inv req w err :
  first_failure (remote w) [] (trace (serve (handler req) w)) = Some err ->
  exists g file,
    body_guestName req = Some g /\ truthy g = true /\
    req_file req = Some file /\
    uploader_upload (remote w) [] (file_path file)
      (CloudinaryServer.upload_call_options env g) = Throw err.
Proof.
  unfold handler.
  cloudinary_cases req w; try discriminate.
  all: rewrite ?Hup; simpl; try discriminate.
  all: intros Hfail; injection Hfail as <-.
  all: eexists; eexists; repeat split;
    [ apply body_guestName_Some; eassumption | assumption | assumption ].
Qed.

Lemma cloudinary_rejected_run req g file err w :
  body_guestName req = Some g -> truthy g = true ->
  req_file req = Some file ->
  uploader_upload (remote w) [] (file_path file)
    (CloudinaryServer.upload_call_options env g) = Throw err ->
  let w' := serve (handler req) w in
  result (handler req) w = Return tt
  /\ responses (trace w') = [generic_failure w]
  /\ (file_path file <> [] -> file_path file ∈ files w ->
      unlinks (trace w') = [file_path file]
      /\ (refused (unlink_faults w) [] (trace w') = [] ->
          file_path file ∉ files w')
      /\ (refused (unlink_faults w) [] (trace w') <> [] ->
          file_path file ∈ files w')).
Proof.
  intros Hb0%body_guestName_Some Ht0 Hf0 Hup0. cbv zeta. unfold handler.
  cloudinary_cases req w; try congruence;
    injection Hb0 as <-; injection Hf0 as <-; try congruence;
    (split; [reflexivity|]); (split; [reflexivity|]);
    intros Hne%truthy_nonempty Hin; try congruence;
    try (exfalso; set_solver);
    rewrite ?Hunlink; simpl;
    (split; [reflexivity|]);
    (split; [intros Hnone; try discriminate Hnone
            | intros Hsome; try congruence]);
    set_solver.
Qed.

End CloudinaryRuns.

(** C2, as the code has it. When the provider rejects the upload call of
    the Cloudinary handler, the handler ends without throwing and has tried
    to delete the temporary file of the request once. The file is gone if
    the file system carried the deletion out; if it refused, the handler
    drops the error and the file stays on disk. The one response is a 500
    whose body carries [success: false], the correlation id, made of the
    clock in base 36, a dash and six digits of the random number, and a
    message built from the id alone: the thrown error does not enter the
    response. *)
Theorem cloudinary_upload_failure
    (env : gmap string jsstring) (dirname : jsstring)
    (req : request) (file : upload_file) (err : js_error) (w : world) :
  req_file req = Some file ->
  file_path file <> [] ->
  file_path file ∈ files w ->
  first_failure (remote w) []
    (trace (serve (CloudinaryServer.upload_handler env dirname req) w))
    = Some err ->
  let w' := serve (CloudinaryServer.upload_handler env dirname req) w in
  let id := int_toString 36 (clock w) ++ lit "-" ++ slice 2 8 (random36 w) in
  result (CloudinaryServer.upload_handler env dirname req) w = Return tt
  /\ unlinks (trace w') = [file_path file]
  /\ (refused (unlink_faults w) [] (trace w') = [] ->
      file_path file ∉ files w')
  /\ (refused (unlink_faults w) [] (trace w') <> [] ->
      file_path file ∈ files w')
  /\ responses (trace w') =
     [Response 500
        (JObj [ ("success", JBool false);
                ("error",
                   JStr (lit "Error al subir el archivo. Contacta al administrador con el id: " ++ id));
                ("id", JStr id) ]%string)].
Proof.
  intros Hf Hne Hin Hfail.
  destruct (cloudinary_failure_inv env dirname req w err Hfail)
    as (g & file' & Hg & Ht & Hf' & Hup).
  assert (file' = file) as -> by congruence.
  destruct (cloudinary_rejected_run env dirname req g file err w Hg Ht Hf Hup)
    as (Hres & Hresp & Hclean).
  destruct (Hclean Hne Hin) as (Hun & Hgone & Hstays).
  cbv zeta. repeat split; assumption.
Qed.

Lemma cloudinary_upload_failure_witness :
  let w' := serve (CloudinaryServer.upload_handler Sample.env Sample.dirname
                     Sample.upload)
                  (Sample.host Sample.rejecting) in
  unlinks (trace w') = [Sample.temp]
  /\ (Sample.temp ∉ files w')
  /\ responses (trace w') =
     [Response 500
        (JObj [ ("success", JBool false);
                ("error",
                   JStr (lit "Error al subir el archivo. Contacta al administrador con el id: loyw3v28-4fzyo8"));
                ("id", JStr (lit "loyw3v28-4fzyo8")) ]%string)].
Proof.
  destruct (cloudinary_upload_failure Sample.env Sample.dirname Sample.upload
              Sample.photo Sample.provider_error
              (Sample.host Sample.rejecting))
    as (_ & Hun & Hgone & _ & Hresp).
  - reflexivity.
  - discriminate.
  - vm_compute. reflexivity.
  - vm_compute. reflexivity.
  - cbv zeta. split; [exact Hun|]. split.
    + apply Hgone. vm_compute. reflexivity.
    + rewrite Hresp. vm_compute. reflexivity.
Defined.

(** C2 as stated fails when the file system refuses the deletion: the
    provider rejects the upload, the handler tries to delete the temporary
    file once, drops the error of [unlinkSync], answers 500, and the file
    is still on disk. *)
Lemma temp_file_stays_when_the_deletion_is_refused :
  let w := Sample.locked Sample.rejecting in
  let w' := serve (CloudinaryServer.upload_handler Sample.env Sample.dirname
                     Sample.upload) w in
  first_failure (remote w) [] (trace w') = Some Sample.provider_error
  /\ Sample.temp ∈ files w
  /\ unlinks (trace w') = [Sample.temp]
  /\ statuses (trace w') = [500%Z]
  /\ Sample.temp ∈ files w'.
Proof.
  cbv zeta. split; [vm_compute; reflexivity|].
  split; [vm_compute; reflexivity|].
  split; [vm_compute; reflexivity|].
  split; [vm_compute; reflexivity|].
  vm_compute. reflexivity.
Qed.

(** The identifier of the sample failure. *)
Example sample_errorId :
  CloudinaryServer.errorId 1700000000000 (lit "0.4fzyo82mvyr")
  = lit "loyw3v28-4fzyo8".
Proof. vm_compute. reflexivity. Qed.




(** ** The size limit and the error middleware *)

Lemma int_toString_truthy z : truthy (int_toString 10 z) = true.
Proof.
  destruct z as [|p|p]; [reflexivity| |reflexivity].
  unfold int_toString. pose proof (digits_head (N.pos p)) as H.
  destruct (digits 10 (N.pos p)); [contradiction | reflexivity].
Qed.

(** The limit read from the decimal writing of an integer that is a double
    is that integer. *)
Lemma size_limit_of_integer (env : gmap string jsstring) z :
  (- 2 ^ 53 <= z <= 2 ^ 53)%Z ->
  env !! "MAX_FILE_SIZE_MB"%string = Some (int_toString 10 z) ->
  CloudinaryServer.MAX_FILE_SIZE_MB env = Int z.
Proof.
  intros Hz Henv. unfold CloudinaryServer.MAX_FILE_SIZE_MB.
  rewrite Henv, (or_else_truthy _ _ (int_toString_truthy z)).
  rewrite parseInt10_int_toString. now apply to_double_safe.
Qed.

Lemma size_limit_default (env : gmap string jsstring) :
  (forall s, env !! "MAX_FILE_SIZE_MB"%string = Some s -> s = []) ->
  CloudinaryServer.MAX_FILE_SIZE_MB env = Int 50.
Proof.
  intros Henv. unfold CloudinaryServer.MAX_FILE_SIZE_MB.
  destruct (env !! "MAX_FILE_SIZE_MB"%string) as [s|] eqn:Hs;
    [rewrite (Henv s eq_refl)|]; vm_compute; reflexivity.
Qed.

Lemma too_large_response env err w :
  err_name err = Some (lit "MulterError") ->
  err_code err = Some (lit "LIMIT_FILE_SIZE") ->
  responses
    (trace (serve (CloudinaryServer.multer_error_middleware env err) w))
  = [Response 413
       (JObj [ ("success", JBool false);
               ("error",
                  JStr (CloudinaryServer.too_large_prefix
                        ++ num_toString (CloudinaryServer.MAX_FILE_SIZE_MB env)
                        ++ lit " MB")) ]%string)].
Proof.
  intros Hname Hcode.
  unfold serve, fresh, CloudinaryServer.multer_error_middleware.
  rewrite (bool_decide_eq_true_2 _ Hname), (bool_decide_eq_true_2 _ Hcode).
  reflexivity.
Qed.

(** C6. The error middleware of the Cloudinary server answers a multer
    error whose code is [LIMIT_FILE_SIZE] with 413 and the message
    [Archivo demasiado grande. Tamaño máximo por archivo: N MB], where N is
    the number read from [MAX_FILE_SIZE_MB], or from [50] when the variable
    is not set or empty, as JavaScript prints it: when the variable holds
    the decimal writing of an integer between -2^53 and 2^53, N is that
    writing, and N is 50 by default. Every other multer error is answered
    400 with the message of the error. Both bodies carry [success: false]. *)
Theorem multer_errors_mapped
    (env : gmap string jsstring) (err : js_error) (w : world) :
  err_name err = Some (lit "MulterError") ->
  let sent :=
    responses
      (trace (serve (CloudinaryServer.multer_error_middleware env err) w)) in
  let too_large size :=
    [Response 413
       (JObj [ ("success", JBool false);
               ("error",
                  JStr (lit "Archivo demasiado grande. Tama" ++ [241]
                        ++ lit "o m" ++ [225] ++ lit "ximo por archivo: "
                        ++ size ++ lit " MB")) ]%string)] in
  (err_code err = Some (lit "LIMIT_FILE_SIZE") ->
   sent = too_large
            (num_toString
               (parseInt10
                  (or_else (env !! "MAX_FILE_SIZE_MB"%string) (lit "50"))))
   /\ (forall z, (- 2 ^ 53 <= z <= 2 ^ 53)%Z ->
                 env !! "MAX_FILE_SIZE_MB"%string = Some (int_toString 10 z) ->
                 sent = too_large (int_toString 10 z))
   /\ ((forall s, env !! "MAX_FILE_SIZE_MB"%string = Some s -> s = []) ->
       sent = too_large (lit "50")))
  /\ (err_code err <> Some (lit "LIMIT_FILE_SIZE") ->
      sent =
      [Response 400
         (JObj [ ("success", JBool false);
                 ("error",
                    JStr (lit "Error en la carga del archivo: "
                          ++ to_String (err_message err))) ]%string)]).
Proof.
  intros Hname. cbv zeta. split.
  - intros Hcode. rewrite (too_large_response env err w Hname Hcode).
    unfold CloudinaryServer.too_large_prefix. rewrite <- !app_assoc.
    split; [reflexivity|]. split.
    + intros z Hz Henv.
      now rewrite (size_limit_of_integer env z Hz Henv), num_toString_safe.
    + intros Henv. rewrite (size_limit_default env Henv). reflexivity.
  - intros Hcode.
    unfold serve, fresh, CloudinaryServer.multer_error_middleware.
    rewrite (bool_decide_eq_true_2 _ Hname), (bool_decide_eq_false_2 _ Hcode).
    reflexivity.
Qed.

Lemma multer_errors_mapped_witness :
  responses
    (trace (serve (CloudinaryServer.multer_error_middleware Sample.env
                     Sample.size_error)
                  (Sample.host Sample.accepting)))
  = [Response 413
       (JObj [ ("success", JBool false);
               ("error",
                  JStr (lit "Archivo demasiado grande. Tama" ++ [241]
                        ++ lit "o m" ++ [225]
                        ++ lit "ximo por archivo: 25 MB")) ]%string)]
  /\ responses
       (trace (serve (CloudinaryServer.multer_error_middleware Sample.env
                        Sample.field_error)
                     (Sample.host Sample.accepting)))
     = [Response 400
          (JObj [ ("success", JBool false);
                  ("error",
                     JStr (lit "Error en la carga del archivo: Unexpected field"))
                ]%string)].
Proof.
  split.
  - rewrite (proj1 (proj2 (proj1 (multer_errors_mapped Sample.env
                                    Sample.size_error
                                    (Sample.host Sample.accepting) eq_refl)
                             eq_refl)) 25%Z).
    + vm_compute. reflexivity.
    + vm_compute. split; discriminate.
    + reflexivity.
  - rewrite (proj2 (multer_errors_mapped Sample.env Sample.field_error
                      (Sample.host Sample.accepting) eq_refl)).
    + vm_compute. reflexivity.
    + vm_compute. discriminate.
Defined.

(** The size the sample environment configures, the default, and sizes
    that are not read as they are written: beyond 2^53 the number is the
    nearest double, printed with the fewest digits that denote it. *)
Example sample_max_size :
  num_toString (CloudinaryServer.MAX_FILE_SIZE_MB Sample.env) = lit "25"
  /\ num_toString (CloudinaryServer.MAX_FILE_SIZE_MB ∅) = lit "50".
Proof. split; vm_compute; reflexivity. Qed.

Example size_beyond_2_53 :
  num_toString (parseInt10 (lit "9007199254740993")) = lit "9007199254740992"
  /\ num_toString (parseInt10 (lit "1152921504606846976"))
     = lit "1152921504606847000"
  /\ num_toString (parseInt10 (lit "1000000000000000000000")) = lit "1e+21"
  /\ num_toString (parseInt10 (lit "123456789012345678901234567890"))
     = lit "1.2345678901234568e+29"
  /\ num_toString (parseInt10 (lit "-18014398509481987"))
     = lit "-18014398509481988".
Proof. repeat split; vm_compute; reflexivity. Qed.

Example size_beyond_the_largest_double :
  parseInt10 (replicate 400 57) = Infinity false
  /\ num_toString (parseInt10 (replicate 400 57)) = lit "Infinity"
  /\ num_mul (Infinity false) (Int 1024) = Infinity false
  /\ num_mul (Int 0) (Infinity false) = NaN.
Proof. repeat split; vm_compute; reflexivity. Qed.

(** ** The signing function *)

Section SignRuns.

Variable env : gmap string jsstring.

Lemma sign_handler_configured ev w cloud key secret :
  env_has env "CLOUDINARY_CLOUD_NAME" cloud ->
  env_has env "CLOUDINARY_API_KEY" key ->
  env_has env "CLOUDINARY_API_SECRET" secret ->
  result (SignFunction.handler env ev) w =
  Return (signed_params cloud key (SignFunction.timestamp (clock w))
            (SignFunction.signature (SignFunction.folder env ev)
               (SignFunction.timestamp (clock w)) secret)
            (SignFunction.folder env ev)).
Proof.
  intros [Hc Htc] [Hk Htk] [Hs Hts].
  unfold result, fresh, SignFunction.handler, SignFunction.CLOUD_NAME,
    SignFunction.API_KEY, SignFunction.API_SECRET.
  rewrite Hc, Hk, Hs, Htc, Htk, Hts. reflexivity.
Qed.

Lemma sign_handler_cases ev w :
  (exists cloud key secret,
      env_has env "CLOUDINARY_CLOUD_NAME" cloud
      /\ env_has env "CLOUDINARY_API_KEY" key
      /\ env_has env "CLOUDINARY_API_SECRET" secret)
  \/ result (SignFunction.handler env ev) w
     = Return SignFunction.not_configured.
Proof.
  unfold result, fresh, SignFunction.handler, SignFunction.CLOUD_NAME,
    SignFunction.API_KEY, SignFunction.API_SECRET, env_has.
  destruct (env !! "CLOUDINARY_CLOUD_NAME"%string) as [cloud|];
    [|right; reflexivity].
  destruct (env !! "CLOUDINARY_API_KEY"%string) as [key|];
    [|right; reflexivity].
  destruct (env !! "CLOUDINARY_API_SECRET"%string) as [secret|];
    [|right; reflexivity].
  destruct (truthy cloud) eqn:Hc; [|right; reflexivity].
  destruct (truthy key) eqn:Hk; [|right; reflexivity].
  destruct (truthy secret) eqn:Hs; [|right; reflexivity].
  left. exists cloud, key, secret. repeat split; assumption.
Qed.

Lemma toSign_canonical folder ts :
  SignFunction.toSign folder ts =
  spec_canonical_query
    [ ("timestamp"%string, int_toString 10 ts); ("folder"%string, folder) ].
Proof.
  unfold SignFunction.toSign. generalize (int_toString 10 ts). intros d.
  vm_compute. reflexivity.
Qed.

Lemma sign_guestName_empty ev :
  (forall g, SignFunction.qs ev !! "guestName"%string = Some g -> trim g = []) ->
  SignFunction.guestName ev = [].
Proof.
  intros H. unfold SignFunction.guestName.
  destruct (SignFunction.qs ev !! "guestName"%string) as [g|] eqn:Hg;
    [|reflexivity].
  destruct (truthy g); [apply H; reflexivity | reflexivity].
Qed.

Lemma sign_sanitized_nonempty ev : SignFunction.sanitized ev <> [].
Proof.
  destruct (sign_sanitized_cases ev) as [[_ ->]|[Hn ->]].
  - discriminate.
  - intros H. apply replace_outside_nil in H. contradiction.
Qed.

End SignRuns.

(** C3. The signature is the SHA-1 digest of the canonical query string of
    [folder] and [timestamp] (parameters sorted by key, written key=value,
    joined with an ampersand; the timestamp is the clock in whole seconds)
    followed by the API secret. The success body has the five properties
    [api_key], [timestamp], [signature], [cloud_name] and [folder] and no
    other, and the secret reaches it through the digest only: with another
    secret every other property is the same. *)
Theorem sign_response_contents
    (env : gmap string jsstring) (ev : SignFunction.netlify_event)
    (w : world) (cloud key secret : jsstring) :
  env_has env "CLOUDINARY_CLOUD_NAME" cloud ->
  env_has env "CLOUDINARY_API_KEY" key ->
  env_has env "CLOUDINARY_API_SECRET" secret ->
  let ts := (clock w / 1000)%Z in
  let folder := SignFunction.folder env ev in
  let digest secret :=
    sha1_hex
      (spec_canonical_query
         [ ("timestamp"%string, int_toString 10 ts);
           ("folder"%string, folder) ] ++ secret) in
  let answer secret :=
    SignFunction.NetlifyResponse 200
      (SignFunction.JSON_stringify
         (JObj [ ("api_key", JStr key);
                 ("timestamp", JNum (Int ts));
                 ("signature", JStr (digest secret));
                 ("cloud_name", JStr cloud);
                 ("folder", JStr folder) ]%string)) in
  result (SignFunction.handler env ev) w = Return (answer secret)
  /\ (forall secret', truthy secret' = true ->
      result (SignFunction.handler
                (<["CLOUDINARY_API_SECRET"%string := secret']> env) ev) w
      = Return (answer secret')).
Proof.
  intros Hc Hk Hs. simpl. split.
  - rewrite (sign_handler_configured env ev w cloud key secret Hc Hk Hs).
    unfold signed_params, SignFunction.signature, SignFunction.timestamp.
    now rewrite toSign_canonical.
  - intros secret' Hs'.
    destruct Hc as [Hc Htc], Hk as [Hk Htk].
    rewrite (sign_handler_configured _ ev w cloud key secret').
    + unfold signed_params, SignFunction.signature, SignFunction.timestamp,
        SignFunction.folder, SignFunction.BASE_FOLDER.
      rewrite toSign_canonical, lookup_insert_ne by discriminate.
      reflexivity.
    + split; [rewrite lookup_insert_ne by discriminate|]; assumption.
    + split; [rewrite lookup_insert_ne by discriminate|]; assumption.
    + split; [apply lookup_insert_eq | assumption].
Qed.

Lemma sign_response_contents_witness :
  result (SignFunction.handler Sample.env (Sample.query (lit "Ana & Luis")))
         (Sample.host Sample.accepting)
  = Return
      (SignFunction.NetlifyResponse 200
         (SignFunction.JSON_stringify
            (JObj [ ("api_key", JStr (lit "123456"));
                    ("timestamp", JNum (Int 1700000000));
                    ("signature",
                       JStr (lit "8fe4ad6fafa0dd5cc3e73ee05b701e44f895be9d"));
                    ("cloud_name", JStr (lit "demo"));
                    ("folder", JStr (lit "wedding_photos/Ana___Luis"))
                  ]%string))).
Proof.
  refine (eq_trans
            (proj1 (sign_response_contents Sample.env
                      (Sample.query (lit "Ana & Luis"))
                      (Sample.host Sample.accepting)
                      (lit "demo") (lit "123456") (lit "s3cret") _ _ _))
            _).
  - split; reflexivity.
  - split; reflexivity.
  - split; reflexivity.
  - vm_compute. reflexivity.
Defined.

(** C4. The signature of a success response is a function of the folder,
    the timestamp and the secret: two runs that agree on the three, whatever
    else differs in their environments, requests and clocks, carry the same
    signature. *)
Theorem signature_deterministic
    (env1 env2 : gmap string jsstring)
    (ev1 ev2 : SignFunction.netlify_event) (w1 w2 : world)
    (r1 r2 : SignFunction.netlify_response) :
  result (SignFunction.handler env1 ev1) w1 = Return r1 ->
  result (SignFunction.handler env2 ev2) w2 = Return r2 ->
  SignFunction.statusCode r1 = 200%Z ->
  SignFunction.statusCode r2 = 200%Z ->
  SignFunction.folder env1 ev1 = SignFunction.folder env2 ev2 ->
  SignFunction.timestamp (clock w1) = SignFunction.timestamp (clock w2) ->
  SignFunction.API_SECRET env1 = SignFunction.API_SECRET env2 ->
  exists signature,
    body_field "signature" r1 = Some (JStr signature)
    /\ body_field "signature" r2 = Some (JStr signature)
    /\ forall secret, SignFunction.API_SECRET env1 = Some secret ->
       signature =
       SignFunction.signature (SignFunction.folder env1 ev1)
         (SignFunction.timestamp (clock w1)) secret.
Proof.
  intros Hr1 Hr2 Hs1 Hs2 Hfolder Hts Hsecret.
  destruct (sign_handler_cases env1 ev1 w1)
    as [(c1 & k1 & s1 & Hc1 & Hk1 & Hsec1)|Hno];
    [|rewrite Hno in Hr1; injection Hr1 as <-; discriminate Hs1].
  destruct (sign_handler_cases env2 ev2 w2)
    as [(c2 & k2 & s2 & Hc2 & Hk2 & Hsec2)|Hno];
    [|rewrite Hno in Hr2; injection Hr2 as <-; discriminate Hs2].
  rewrite (sign_handler_configured env1 ev1 w1 c1 k1 s1 Hc1 Hk1 Hsec1) in Hr1.
  rewrite (sign_handler_configured env2 ev2 w2 c2 k2 s2 Hc2 Hk2 Hsec2) in Hr2.
  injection Hr1 as <-. injection Hr2 as <-.
  assert (s2 = s1) as ->.
  { destruct Hsec1 as [H1 _], Hsec2 as [H2 _].
    unfold SignFunction.API_SECRET in Hsecret. congruence. }
  exists (SignFunction.signature (SignFunction.folder env1 ev1)
            (SignFunction.timestamp (clock w1)) s1).
  split; [reflexivity|]. split.
  - rewrite Hfolder, Hts. reflexivity.
  - intros secret Hsec. destruct Hsec1 as [H1 _].
    unfold SignFunction.API_SECRET in Hsec. congruence.
Qed.

Lemma signature_deterministic_witness :
  exists signature,
    body_field "signature"
      (signed_params (lit "demo") (lit "123456") 1700000000
         (SignFunction.signature (lit "wedding_photos/Ana") 1700000000
            (lit "s3cret"))
         (lit "wedding_photos/Ana")) = Some (JStr signature)
    /\ body_field "signature"
         (signed_params (lit "other") (lit "999") 1700000000
            (SignFunction.signature (lit "wedding_photos/Ana") 1700000000
               (lit "s3cret"))
            (lit "wedding_photos/Ana")) = Some (JStr signature).
Proof.
  destruct (signature_deterministic Sample.env Sample.other_account
              (Sample.query (lit "Ana")) (Sample.query (lit " Ana "))
              (Sample.host Sample.accepting) (Sample.later Sample.rejecting)
              _ _ eq_refl eq_refl eq_refl eq_refl eq_refl eq_refl eq_refl)
    as (signature & H1 & H2 & _).
  exists signature. split; [exact H1 | exact H2].
Defined.

(** The digest of the sample request. *)
Example sample_signature :
  SignFunction.signature (lit "wedding_photos/Ana") 1700000000 (lit "s3cret")
  = lit "4c6ca47c8f88c1bbc78375f936bd3db3c6c1c07f".
Proof. vm_compute. reflexivity. Qed.

(** C8. When the [guestName] parameter is absent, or nothing is left of it
    after trimming, the folder of the success response is the base folder
    followed by the segment [anonymous]; and no request at all gets an
    empty segment. *)
Theorem sign_empty_guest_uses_placeholder
    (env : gmap string jsstring) (ev : SignFunction.netlify_event)
    (w : world) (cloud key secret : jsstring) :
  env_has env "CLOUDINARY_CLOUD_NAME" cloud ->
  env_has env "CLOUDINARY_API_KEY" key ->
  env_has env "CLOUDINARY_API_SECRET" secret ->
  (forall g, SignFunction.qs ev !! "guestName"%string = Some g ->
             trim g = []) ->
  (exists r,
      result (SignFunction.handler env ev) w = Return r
      /\ SignFunction.statusCode r = 200%Z
      /\ body_field "folder" r =
         Some (JStr (SignFunction.BASE_FOLDER env ++ lit "/"
                     ++ lit "anonymous")))
  /\ SignFunction.BASE_FOLDER env <> []
  /\ forall ev', SignFunction.sanitized ev' <> [].
Proof.
  intros Hc Hk Hs Hempty. split; [|split].
  - eexists. split; [apply (sign_handler_configured env ev w); eassumption|].
    split; [reflexivity|].
    unfold body_field, signed_params. simpl.
    unfold SignFunction.folder, SignFunction.sanitized.
    rewrite (sign_guestName_empty ev Hempty). reflexivity.
  - unfold SignFunction.BASE_FOLDER, or_else.
    destruct (env !! "CLOUDINARY_FOLDER"%string) as [b|];
      [destruct (truthy b) eqn:Hb|]; try discriminate.
    now apply truthy_nonempty.
  - apply sign_sanitized_nonempty.
Qed.

Lemma sign_empty_guest_uses_placeholder_witness :
  exists r,
    result (SignFunction.handler Sample.env (Sample.query (lit "  ")))
           (Sample.host Sample.accepting) = Return r
    /\ SignFunction.statusCode r = 200%Z
    /\ body_field "folder" r =
       Some (JStr (SignFunction.BASE_FOLDER Sample.env ++ lit "/"
                   ++ lit "anonymous")).
Proof.
  refine (proj1 (sign_empty_guest_uses_placeholder Sample.env
                   (Sample.query (lit "  ")) (Sample.host Sample.accepting)
                   (lit "demo") (lit "123456") (lit "s3cret") _ _ _ _)).
  - split; reflexivity.
  - split; reflexivity.
  - split; reflexivity.
  - intros g Hg. vm_compute in Hg. injection Hg as <-. reflexivity.
Defined.

(** The folder of a request without a query string. *)
Example sample_anonymous_folder :
  SignFunction.folder Sample.env (SignFunction.NetlifyEvent None)
  = lit "wedding_photos/anonymous".
Proof. vm_compute. reflexivity. Qed.

(** The one call the Cloudinary handler makes once both guards pass. *)
Lemma cloudinary_remote_calls env dirname req g file w :
  body_guestName req = Some g -> truthy g = true ->
  req_file req = Some file ->
  remote_calls
    (trace (serve (CloudinaryServer.upload_handler env dirname req) w))
  = [CloudinaryUpload (file_path file)
       (CloudinaryServer.upload_call_options env g)].
Proof.
  intros Hb0%body_guestName_Some Ht0 Hf0.
  cloudinary_cases req w; try congruence;
    injection Hb0 as <-; injection Hf0 as <-; try congruence; reflexivity.
Qed.

(** C10. For a guest name that is not empty and that trimming leaves
    unchanged, the folder the Cloudinary upload handler asks the provider
    for and the folder the signing function returns are the same string,
    when both are configured with the same base folder. *)
Theorem upload_and_sign_folders_agree
    (env_server env_function : gmap string jsstring) (dirname : jsstring)
    (req : request) (file : upload_file) (g : jsstring)
    (ev : SignFunction.netlify_event) (w w_function : world)
    (cloud key secret : jsstring) :
  body_guestName req = Some g ->
  req_file req = Some file ->
  g <> [] ->
  trim g = g ->
  SignFunction.qs ev !! "guestName"%string = Some g ->
  env_has env_function "CLOUDINARY_CLOUD_NAME" cloud ->
  env_has env_function "CLOUDINARY_API_KEY" key ->
  env_has env_function "CLOUDINARY_API_SECRET" secret ->
  CloudinaryServer.mainFolder env_server
    = SignFunction.BASE_FOLDER env_function ->
  exists folder r,
    map call_folder
      (remote_calls
         (trace (serve (CloudinaryServer.upload_handler env_server dirname
                          req) w)))
    = [Some folder]
    /\ result (SignFunction.handler env_function ev) w_function = Return r
    /\ body_field "folder" r = Some (JStr folder)
    /\ folder = CloudinaryServer.mainFolder env_server ++ lit "/"
                ++ CloudinaryServer.sanitized g.
Proof.
  intros Hg Hf Hne Htrim Hq Hc Hk Hs Hbase.
  apply truthy_nonempty in Hne.
  exists (CloudinaryServer.uploadFolder env_server g). eexists.
  split; [|split; [|split]].
  - rewrite (cloudinary_remote_calls _ _ req g file w Hg Hne Hf). reflexivity.
  - apply (sign_handler_configured env_function ev w_function); eassumption.
  - unfold body_field, signed_params. simpl. do 2 f_equal.
    unfold SignFunction.folder, CloudinaryServer.uploadFolder.
    rewrite Hbase. do 2 f_equal.
    destruct (sign_sanitized_cases ev) as [[Hn _]|[_ ->]].
    + rewrite (sign_guestName_trim ev g Hq), Htrim in Hn.
      subst g. discriminate Hne.
    + rewrite (sign_guestName_trim ev g Hq), Htrim. reflexivity.
  - reflexivity.
Qed.

Lemma upload_and_sign_folders_agree_witness :
  exists folder r,
    map call_folder
      (remote_calls
         (trace (serve (CloudinaryServer.upload_handler Sample.env
                          Sample.dirname Sample.upload)
                       (Sample.host Sample.accepting))))
    = [Some folder]
    /\ result (SignFunction.handler Sample.other_account
                 (Sample.query (lit "Ana & Luis-2")))
              (Sample.later Sample.rejecting) = Return r
    /\ body_field "folder" r = Some (JStr folder)
    /\ folder = lit "wedding_photos/Ana___Luis-2".
Proof.
  destruct (upload_and_sign_folders_agree Sample.env Sample.other_account
              Sample.dirname Sample.upload Sample.photo (lit "Ana & Luis-2")
              (Sample.query (lit "Ana & Luis-2"))
              (Sample.host Sample.accepting) (Sample.later Sample.rejecting)
              (lit "other") (lit "999") (lit "s3cret"))
    as (folder & r & H1 & H2 & H3 & H4).
  - reflexivity.
  - reflexivity.
  - discriminate.
  - vm_compute. reflexivity.
  - reflexivity.
  - split; reflexivity.
  - split; reflexivity.
  - split; reflexivity.
  - reflexivity.
  - exists folder, r. split; [exact H1|]. split; [exact H2|].
    split; [exact H3|]. rewrite H4. vm_compute. reflexivity.
Defined.

(** ** The Drive upload handler *)

Ltac drive_step :=
  match goal with
  | |- context [files_list ?p ?t ?q ?f] =>
      let H := fresh "Hlist" in
      destruct (files_list p t q f) as [[|? ?]|?] eqn:H
  | |- context [files_create ?p ?t ?r ?m ?f] =>
      let H := fresh "Hcreate" in
      destruct (files_create p t r m f) as [?|?] eqn:H
  | |- _ => file_step
  end.

(** The runs of the Drive handler, case by case. *)
Ltac drive_cases req w :=
  unfold result, serve;
  match goal with
  | |- context [DriveServer.upload_handler ?client req (fresh w)] =>
      let run := fresh "run" in
      let Hrun := fresh "Hrun" in
      remember (DriveServer.upload_handler client req (fresh w))
        as run eqn:Hrun;
      revert Hrun
  end;
  unfold fresh, DriveServer.upload_handler,
    DriveServer.tempPath_at_exit, DriveServer.finally_cleanup;
  let v := fresh "v" in
  let g := fresh "g" in
  let file := fresh "file" in
  let Hb := fresh "Hb" in
  let Ht := fresh "Ht" in
  let Hf := fresh "Hf" in
  let Hp := fresh "Hp" in
  destruct (req_body req) as [[v]|] eqn:Hb;
    [ destruct v as [|g|[|] ?text]; simpl;
      try (destruct (truthy g) eqn:Ht; simpl; rewrite ?Ht);
      host_unfold;
      try (destruct (req_file req) as [file|] eqn:Hf; host_unfold;
           [ unfold DriveServer.upload_steps, DriveServer.first_or_create,
               replace_receiver;
             destruct (truthy (file_path file)) eqn:Hp; host_unfold;
             repeat (drive_step; host_unfold)
           | ])
    | host_unfold ];
  intros ->; simpl;
  repeat match goal with
         | H : unlink_faults _ _ _ = _ |- _ => rewrite H; simpl
         | H : files_list _ _ _ _ = _ |- _ => rewrite H; simpl
         | H : files_create _ _ _ _ _ = _ |- _ => rewrite H; simpl
         end.

Ltac rewrite_replies :=
  repeat match goal with
         | H : _ = Return _ |- _ => rewrite H
         | H : _ = Throw _ |- _ => rewrite H
         end.

(** What the Drive handler answers when the provider rejected a call. *)
Lemma drive_failure_response auth req w e :
  first_failure (remote w) []
    (trace (serve (DriveServer.upload_handler (Some auth) req) w)) = Some e ->
  responses (trace (serve (DriveServer.upload_handler (Some auth) req) w))
  = [Response 500
       (JObj [ ("success", JBool false);
               ("error", json_of_value (err_message e)) ]%string)].
Proof.
  drive_cases req w; rewrite_replies; simpl; congruence.
Qed.

(** C7. When the provider rejects a call of the Drive handler, whichever
    call it is, the one response is a 500 whose [error] is the [message] of
    the thrown error, as it is. When the provider rejects the call of the
    Cloudinary handler, the one response is a 500 whose body is made of the
    clock and the random number: the error is not in it. *)
Theorem drive_failure_surfaces_raw_message
    (auth : DriveServer.OAuth2Client) (req : request) (w : world)
    (e : js_error)
    (env : gmap string jsstring) (dirname : jsstring)
    (req' : request) (w' : world) (e' : js_error) :
  (first_failure (remote w) []
     (trace (serve (DriveServer.upload_handler (Some auth) req) w)) = Some e ->
   responses (trace (serve (DriveServer.upload_handler (Some auth) req) w))
   = [Response 500
        (JObj [ ("success", JBool false);
                ("error", json_of_value (err_message e)) ]%string)])
  /\ (first_failure (remote w') []
        (trace (serve (CloudinaryServer.upload_handler env dirname req') w'))
      = Some e' ->
      let id :=
        int_toString 36 (clock w') ++ lit "-" ++ slice 2 8 (random36 w') in
      responses
        (trace (serve (CloudinaryServer.upload_handler env dirname req') w'))
      = [Response 500
           (JObj [ ("success", JBool false);
                   ("error",
                      JStr (lit "Error al subir el archivo. Contacta al administrador con el id: " ++ id));
                   ("id", JStr id) ]%string)]).
Proof.
  split.
  - apply drive_failure_response.
  - intros Hcloud.
    destruct (cloudinary_failure_inv env dirname req' w' e' Hcloud)
      as (g & file & Hg & Ht & Hf & Hup).
    apply (cloudinary_rejected_run env dirname req' g file e' w' Hg Ht Hf Hup).
Qed.

Lemma drive_failure_surfaces_raw_message_witness :
  responses
    (trace (serve (DriveServer.upload_handler (Some Sample.auth)
                     Sample.upload)
                  (Sample.host Sample.rejecting)))
  = [Response 500
       (JObj [ ("success", JBool false);
               ("error", JStr (lit "Invalid api_key 123456")) ]%string)]
  /\ responses
       (trace (serve (CloudinaryServer.upload_handler Sample.env
                        Sample.dirname Sample.upload)
                     (Sample.host Sample.rejecting)))
     = [Response 500
          (JObj [ ("success", JBool false);
                  ("error",
                     JStr (lit "Error al subir el archivo. Contacta al administrador con el id: loyw3v28-4fzyo8"));
                  ("id", JStr (lit "loyw3v28-4fzyo8")) ]%string)].
Proof.
  destruct (drive_failure_surfaces_raw_message Sample.auth Sample.upload
              (Sample.host Sample.rejecting) Sample.provider_error
              Sample.env Sample.dirname Sample.upload
              (Sample.host Sample.rejecting) Sample.provider_error)
    as [Hdrive Hcloud].
  split.
  - apply Hdrive. vm_compute. reflexivity.
  - rewrite Hcloud; vm_compute; reflexivity.
Defined.

(** A later failure: the folders are found, the file upload is rejected. *)
Example drive_failure_at_the_last_call :
  let p := Provider (fun _ _ _ => Throw Sample.provider_error)
                    (fun _ _ _ => Return [lit "folder-1"])
                    (fun _ _ _ _ => Throw Sample.provider_error) in
  let t := trace (serve (DriveServer.upload_handler (Some Sample.auth)
                           Sample.upload) (Sample.host p)) in
  length (remote_calls t) = 3%nat
  /\ statuses t = [500%Z]
  /\ unlinks t = [Sample.temp].
Proof. vm_compute. repeat split. Qed.

(** A successful Cloudinary upload: one call, one deletion, a 200. *)
Example cloudinary_success :
  let t := trace (serve (CloudinaryServer.upload_handler Sample.env
                           Sample.dirname Sample.upload)
                        (Sample.host Sample.accepting)) in
  map call_folder (remote_calls t) = [Some (lit "wedding_photos/Ana___Luis-2")]
  /\ statuses t = [200%Z]
  /\ unlinks t = [Sample.temp].
Proof. vm_compute. repeat split. Qed.

(** A guest name sent twice reaches the handlers as an array. The
    Cloudinary handler fails at [replace] before it calls the provider: it
    logs the request, deletes the temporary file and answers 500. The Drive
    handler fails at [replace] after its first lookup and answers 500 with
    the message of the [TypeError]. *)
Example cloudinary_repeated_guest_name :
  let t := trace (serve (CloudinaryServer.upload_handler Sample.env
                           Sample.dirname Sample.repeated_name)
                        (Sample.host Sample.accepting)) in
  remote_calls t = [] /\ statuses t = [500%Z] /\ unlinks t = [Sample.temp]
  /\ map (fun l => json_get "guestName" (snd l)) (appended t)
     = [Some (JStr (lit "Ana,Luis"))].
Proof. vm_compute. repeat split. Qed.

Example drive_repeated_guest_name :
  let t := trace (serve (DriveServer.upload_handler (Some Sample.auth)
                           Sample.repeated_name)
                        (Sample.host Sample.accepting)) in
  length (remote_calls t) = 1%nat
  /\ responses t
     = [Response 500
          (JObj [ ("success", JBool false);
                  ("error", JStr (lit "guestName.replace is not a function"))
                ]%string)]
  /\ unlinks t = [Sample.temp].
Proof. vm_compute. repeat split. Qed.

(** A deletion the file system refuses, after a successful upload to
    Drive: the answer is 500 and the [finally] block tries again. *)
Example drive_deletion_refused :
  let w' := serve (DriveServer.upload_handler (Some Sample.auth)
                     Sample.upload) (Sample.locked Sample.accepting) in
  length (remote_calls (trace w')) = 3%nat
  /\ statuses (trace w') = [500%Z]
  /\ unlinks (trace w') = [Sample.temp; Sample.temp]
  /\ refused (unlink_faults (Sample.locked Sample.accepting)) [] (trace w')
     = [Sample.busy; Sample.busy].
Proof. vm_compute. repeat split. Qed.

Example sha1_empty :
  sha1_hex [] = lit "da39a3ee5e6b4b0d3255bfef95601890afd80709".
Proof. vm_compute. reflexivity. Qed.

Example sha1_abc :
  sha1_hex (lit "abc") = lit "a9993e364706816aba3e25717850c26c9cd0d89d".
Proof. vm_compute. reflexivity. Qed.

Example lit_ex : lit "a-b_Z9" = [97; 45; 98; 95; 90; 57].
Proof. reflexivity. Qed.

Example replace_ex :
  replace_outside class_word_dash underscore (lit "Ana & Luis-2") =
  lit "Ana___Luis-2".
Proof. reflexivity. Qed.

Example trim_ex : trim (lit "  a b  ") = lit "a b".
Proof. reflexivity. Qed.

Example toString36_ex : int_toString 36 1700000000000 = lit "loyw3v28".
Proof. vm_compute. reflexivity. Qed.

Example toString10_ex : int_toString 10 (-1700000000) = lit "-1700000000".
Proof. vm_compute. reflexivity. Qed.

Example sha1_utf8 :
  sha1_hex [241; 8364; 55357; 56832]
  = lit "557e7780a1c3e633713df5cf41b81dc998a1a27f".
Proof. vm_compute. reflexivity. Qed.

Example sha1_two_blocks :
  sha1_hex (replicate 119 97)
  = lit "ee971065aaa017e0632a8ca6c77bb3bf8b1dfc56".
Proof. vm_compute. reflexivity. Qed.

Example parseInt_ex :
  parseInt10 (lit " 12px") = Int 12 /\ parseInt10 (lit "abc") = NaN
  /\ parseInt10 (lit "-7") = Int (-7).
Proof. repeat split; vm_compute; reflexivity. Qed.


Example split_join_ex :
  split_join (lit "123456") (lit "[REDACTED_API_KEY]")
             (lit "Invalid api_key 123456")
  = lit "Invalid api_key [REDACTED_API_KEY]".
Proof. vm_compute. reflexivity. Qed.

(** * Further properties *)

(** ** Trimming *)

Lemma trimStart_clean s :
  Forall (fun c => is_space c = false) s -> trimStart s = s.
Proof. intros H. destruct H as [|c s Hc _]; simpl; [|rewrite Hc]; reflexivity. Qed.

Lemma trim_clean s :
  Forall (fun c => is_space c = false) s -> trim s = s.
Proof.
  intros H. unfold trim, trimEnd.
  rewrite (trimStart_clean s H), trimStart_clean, rev_involutive;
    [reflexivity|].
  apply Forall_forall. intros c Hc. rewrite Forall_forall in H.
  apply H. apply list_elem_of_In, in_rev, list_elem_of_In. exact Hc.
Qed.

Lemma trimStart_spaces s :
  Forall (fun c => is_space c = true) s -> trimStart s = [].
Proof. induction 1 as [|c s Hc _ IH]; simpl; [|rewrite Hc]; auto. Qed.

Lemma trimStart_nil_inv s :
  trimStart s = [] -> Forall (fun c => is_space c = true) s.
Proof.
  induction s as [|c s IH]; simpl; [constructor|].
  destruct (is_space c) eqn:Hc; [|discriminate].
  intros H. constructor; auto.
Qed.

Lemma trim_nil_iff s :
  trim s = [] <-> Forall (fun c => is_space c = true) s.
Proof.
  unfold trim, trimEnd. split.
  - intros H. apply (f_equal (@rev N)) in H.
    rewrite rev_involutive in H. simpl in H.
    apply trimStart_nil_inv in H.
    assert (Hs : Forall (fun c => is_space c = true) (trimStart s)).
    { apply Forall_forall. intros c Hc. rewrite Forall_forall in H.
      apply H. apply list_elem_of_In, in_rev.
      rewrite rev_involutive. apply list_elem_of_In. exact Hc. }
    clear H. induction s as [|c s IH]; [constructor|].
    simpl in Hs. destruct (is_space c) eqn:Hc.
    + constructor; auto.
    + inversion Hs; congruence.
  - intros H. rewrite (trimStart_spaces s H). reflexivity.
Qed.

(** A trimmed string starts and ends with something that is not white
    space, so trimming it again changes nothing. *)
Lemma trimStart_head s :
  match trimStart s with [] => True | c :: _ => is_space c = false end.
Proof.
  induction s as [|c s IH]; simpl; [exact I|].
  destruct (is_space c) eqn:Hc; [exact IH | exact Hc].
Qed.

Lemma trimStart_fixed s :
  match s with [] => True | c :: _ => is_space c = false end ->
  trimStart s = s.
Proof. destruct s as [|c s]; simpl; [reflexivity|]. now intros ->. Qed.

Lemma trimStart_idem s : trimStart (trimStart s) = trimStart s.
Proof. apply trimStart_fixed, trimStart_head. Qed.

Lemma trimStart_suffix s : exists pre, s = pre ++ trimStart s.
Proof.
  induction s as [|c s [pre IH]]; simpl; [exists []; reflexivity|].
  destruct (is_space c); [exists (c :: pre); simpl; congruence |].
  exists []. reflexivity.
Qed.

Lemma trimEnd_prefix s : exists post, s = trimEnd s ++ post.
Proof.
  unfold trimEnd. destruct (trimStart_suffix (rev s)) as [pre H].
  exists (rev pre). apply (f_equal (@rev N)) in H.
  rewrite rev_involutive, rev_app_distr in H. exact H.
Qed.

Lemma trimEnd_idem s : trimEnd (trimEnd s) = trimEnd s.
Proof. unfold trimEnd. now rewrite rev_involutive, trimStart_idem. Qed.

Lemma trimEnd_head s :
  match s with [] => True | c :: _ => is_space c = false end ->
  match trimEnd s with [] => True | c :: _ => is_space c = false end.
Proof.
  intros H. destruct (trimEnd_prefix s) as [post Hpost].
  destruct (trimEnd s) as [|c t]; [exact I|].
  rewrite Hpost in H. exact H.
Qed.

Lemma trim_idem s : trim (trim s) = trim s.
Proof.
  unfold trim at 1.
  rewrite (trimStart_fixed (trim s)).
  - unfold trim. apply trimEnd_idem.
  - unfold trim. apply trimEnd_head, trimStart_head.
Qed.

(** ** Replacing the occurrences of a key *)

Lemma occurs_nil (key : jsstring) : key <> [] -> ~ occurs key [].
Proof.
  intros Hne (pre & post & H). symmetry in H.
  apply app_eq_nil in H as [_ H]. apply app_eq_nil in H as [H _].
  contradiction.
Qed.

Lemma occurs_cons_inv (key : jsstring) c t :
  occurs key (c :: t) -> key `prefix_of` (c :: t) \/ occurs key t.
Proof.
  intros ([|p pre] & post & H); simpl in H.
  - left. exists post. exact H.
  - right. injection H as _ H. exists pre, post. exact H.
Qed.

(** An occurrence of the key cannot start inside the marker. *)
Lemma occurs_after_marker (key r r' t : jsstring) :
  key <> [] -> (forall c, c ∈ key -> c ∉ r) ->
  (forall c, c ∈ r' -> c ∈ r) -> occurs key (r' ++ t) -> occurs key t.
Proof.
  intros Hne Hapart.
  induction r' as [|y r' IH]; intros Hsub Hocc; [exact Hocc|].
  simpl in Hocc. apply occurs_cons_inv in Hocc as [Hpre|Hocc].
  - exfalso. destruct key as [|k key']; [contradiction|].
    apply prefix_cons_inv_1 in Hpre. subst k.
    apply (Hapart y); [left | apply Hsub; left].
  - apply IH; [|exact Hocc]. intros c Hc. apply Hsub. now right.
Qed.

(** A prefix made of code units of the key is copied from the input. *)
Lemma split_join_prefix (key r s : jsstring) :
  r <> [] -> (forall c, c ∈ key -> c ∉ r) ->
  forall k : jsstring,
  (forall c, c ∈ k -> c ∈ key) ->
  k `prefix_of` split_join_from O key r s -> k `prefix_of` s.
Proof.
  intros Hr Hapart.
  induction s as [|c s IH]; intros k Hk Hpre; [exact Hpre|].
  destruct k as [|x k]; [apply prefix_nil|].
  simpl in Hpre. case_bool_decide as Hkey.
  - exfalso. destruct r as [|y r']; [contradiction|].
    simpl in Hpre. apply prefix_cons_inv_1 in Hpre. subst x.
    apply (Hapart y); [apply Hk; left | left].
  - pose proof (prefix_cons_inv_1 _ _ _ _ Hpre) as ->.
    apply prefix_cons, IH; [|exact (prefix_cons_inv_2 _ _ _ _ Hpre)].
    intros y Hy. apply Hk. now right.
Qed.

Lemma split_join_from_clean (key r s : jsstring) :
  key <> [] -> r <> [] -> (forall c, c ∈ key -> c ∉ r) ->
  forall skip, ~ occurs key (split_join_from skip key r s).
Proof.
  intros Hne Hr Hapart.
  induction s as [|c s IH]; intros skip; [now apply occurs_nil|].
  destruct skip as [|skip]; simpl; [|apply IH].
  case_bool_decide as Hkey.
  - intros Hocc. apply (IH (Nat.pred (length key))).
    apply (occurs_after_marker key r r); auto.
  - intros Hocc. apply occurs_cons_inv in Hocc as [Hpre|Hocc];
      [|exact (IH O Hocc)].
    apply Hkey. clear IH Hkey. destruct key as [|k key']; [contradiction|].
    pose proof (prefix_cons_inv_1 _ _ _ _ Hpre) as ->.
    apply prefix_cons.
    apply (split_join_prefix (c :: key') r s Hr Hapart);
      [|exact (prefix_cons_inv_2 _ _ _ _ Hpre)].
    intros y Hy. now right.
Qed.

Lemma split_join_absent key r s :
  ~ occurs key s -> split_join key r s = s.
Proof.
  unfold split_join. induction s as [|c s IH]; intros Hno; [reflexivity|].
  simpl. case_bool_decide as Hkey.
  - exfalso. apply Hno. destruct Hkey as [post ->]. exists [], post.
    reflexivity.
  - f_equal. apply IH. intros (pre & post & ->). apply Hno.
    exists (c :: pre), post. reflexivity.
Qed.

(** ** The digest in hexadecimal *)

Lemma digit_char_hex d : d < 16 -> digit_char d ∈ hex_digits.
Proof.
  intros Hd.
  assert (H : forall n : nat, (n < 16)%nat ->
                              digit_char (N.of_nat n) ∈ hex_digits).
  { intros n Hn.
    do 16 (destruct n as [|n];
           [apply (bool_decide_unpack _); vm_compute; exact I|]).
    lia. }
  specialize (H (N.to_nat d)). rewrite N2Nat.id in H. apply H. lia.
Qed.

Lemma sha1_hex_format s :
  length (sha1_hex s) = 40%nat
  /\ Forall (fun c => c ∈ hex_digits) (sha1_hex s).
Proof.
  unfold sha1_hex, Sha1.hex_digest, Sha1.digest_words.
  generalize (fold_left Sha1.compress
                (Sha1.chunks 16
                   (map Sha1.be_word (Sha1.chunks 4 (Sha1.pad (utf8 s)))))
                Sha1.init).
  intros h. cbv zeta. simpl map. simpl concat.
  split; [reflexivity|].
  repeat (constructor; [apply digit_char_hex, N.mod_lt; discriminate|]).
  constructor.
Qed.

(** ** The Cloudinary upload handler, every run *)

(** X1. The Cloudinary upload handler answers at most once. It throws in
    two cases, and then it has done nothing at all, no call, no response,
    no deletion: when [req.body] is undefined, because [guestName] is read
    from it before the [try] block; and when the request has a file and a
    guest name that is an object [String] cannot convert, because the
    [replace] call fails and the [catch] block fails in turn while it
    builds the log entry. In every other case it ends without throwing and
    has sent exactly one response, with status 200, 400 or 500. *)
Theorem cloudinary_answers_once_or_throws
    (env : gmap string jsstring) (dirname : jsstring)
    (req : request) (w : world) :
  let run := CloudinaryServer.upload_handler env dirname req in
  let unconvertible := Some (Form (Other true None)) in
  (req_body req = None ->
   result run w = Throw (engine_errors w (PropertyOfUndefined "guestName"))
   /\ trace (serve run w) = [] /\ files (serve run w) = files w)
  /\ (req_body req = unconvertible -> req_file req <> None ->
      result run w = Throw (engine_errors w NoPrimitiveValue)
      /\ trace (serve run w) = [] /\ files (serve run w) = files w)
  /\ (req_body req <> None ->
      req_body req <> unconvertible \/ req_file req = None ->
      result run w = Return tt
      /\ exists r,
           responses (trace (serve run w)) = [r]
           /\ (status r = 200 \/ status r = 400 \/ status r = 500)%Z).
Proof.
  cbv zeta.
  cloudinary_cases req w;
    (split; [intros Hnone; try discriminate Hnone; repeat split|]);
    (split; [intros Hobj Hfile; try discriminate Hobj; try congruence;
             repeat split|]);
    intros Hsome Hother; try congruence;
    try (destruct Hother; congruence);
    (split; [reflexivity|]); eexists; (split; [reflexivity|]); simpl; auto.
Qed.

Lemma cloudinary_answers_once_or_throws_witness :
  result (CloudinaryServer.upload_handler Sample.env Sample.dirname
            Sample.bracketed_name) (Sample.host Sample.accepting)
  = Throw (Sample.engine NoPrimitiveValue)
  /\ result (CloudinaryServer.upload_handler Sample.env Sample.dirname
               Sample.unparsed) (Sample.host Sample.accepting)
     = Throw (Sample.engine (PropertyOfUndefined "guestName"))
  /\ result (CloudinaryServer.upload_handler Sample.env Sample.dirname
               Sample.repeated_name) (Sample.host Sample.accepting)
     = Return tt.
Proof.
  split; [|split].
  - refine (proj1 (proj1 (proj2 (cloudinary_answers_once_or_throws
                                   Sample.env Sample.dirname
                                   Sample.bracketed_name
                                   (Sample.host Sample.accepting)))
                     eq_refl _)).
    discriminate.
  - exact (proj1 (proj1 (cloudinary_answers_once_or_throws
                           Sample.env Sample.dirname Sample.unparsed
                           (Sample.host Sample.accepting)) eq_refl)).
  - refine (proj1 (proj2 (proj2 (cloudinary_answers_once_or_throws
                                   Sample.env Sample.dirname
                                   Sample.repeated_name
                                   (Sample.host Sample.accepting))) _ _)).
    + discriminate.
    + left. discriminate.
Defined.

(** X2. Once both guards pass with a guest name that is a string, whatever
    the provider does and whether or not the log can be written, the
    handler ends without throwing and tries to delete the temporary file of
    the request (a path other than the log file): [unlinkSync] is called
    once if the file is there and not at all otherwise. The file is gone
    when the handler ends unless the file system refused the deletion; the
    handler drops that error, and the file stays. No other file of the disk
    is removed. *)
Theorem cloudinary_temp_file_removed_unless_refused
    (env : gmap string jsstring) (dirname : jsstring)
    (req : request) (g : jsstring) (file : upload_file) (w : world) :
  body_guestName req = Some g -> g <> [] ->
  req_file req = Some file -> file_path file <> [] ->
  file_path file <> CloudinaryServer.logPath dirname ->
  let run := CloudinaryServer.upload_handler env dirname req in
  let w' := serve run w in
  result run w = Return tt
  /\ unlinks (trace w')
     = (if bool_decide (file_path file ∈ files w)
        then [file_path file] else [])
  /\ (refused (unlink_faults w) [] (trace w') = [] ->
      file_path file ∉ files w')
  /\ (refused (unlink_faults w) [] (trace w') <> [] ->
      file_path file ∈ files w')
  /\ forall p, p ∈ files w -> p <> file_path file -> p ∈ files w'.
Proof.
  intros Hb0%body_guestName_Some Hne%truthy_nonempty Hf0
    Hp0%truthy_nonempty Hlog. cbv zeta.
  cloudinary_cases req w; try congruence;
    injection Hb0 as <-; injection Hf0 as <-; try congruence;
    rewrite ?bool_decide_eq_true_2, ?bool_decide_eq_false_2 by assumption;
    try (exfalso; set_solver);
    rewrite ?Hunlink; simpl;
    (split; [reflexivity|]); (split; [reflexivity|]);
    (split; [intros Hnone; try discriminate Hnone; set_solver|]);
    (split; [intros Hsome; try congruence; set_solver|]);
    set_solver.
Qed.

Lemma cloudinary_temp_file_removed_unless_refused_witness :
  (Sample.temp
     ∉ files (serve (CloudinaryServer.upload_handler Sample.env
                       Sample.dirname Sample.upload)
                    (Sample.host Sample.accepting)))
  /\ (Sample.temp
        ∈ files (serve (CloudinaryServer.upload_handler Sample.env
                          Sample.dirname Sample.upload)
                       (Sample.locked Sample.accepting)))
  /\ unlinks
       (trace (serve (CloudinaryServer.upload_handler Sample.env
                        Sample.dirname Sample.upload)
                     (Sample.locked Sample.accepting)))
     = [Sample.temp].
Proof.
  destruct (cloudinary_temp_file_removed_unless_refused Sample.env
              Sample.dirname Sample.upload (lit "Ana & Luis-2") Sample.photo
              (Sample.host Sample.accepting))
    as (_ & _ & Hgone & _);
    [reflexivity | discriminate | reflexivity | discriminate
    | vm_compute; discriminate |].
  destruct (cloudinary_temp_file_removed_unless_refused Sample.env
              Sample.dirname Sample.upload (lit "Ana & Luis-2") Sample.photo
              (Sample.locked Sample.accepting))
    as (_ & Hun & _ & Hstays & _);
    [reflexivity | discriminate | reflexivity | discriminate
    | vm_compute; discriminate |].
  split; [apply Hgone; vm_compute; reflexivity|].
  split; [apply Hstays; vm_compute; discriminate | exact Hun].
Defined.



(** X4. When both guards pass and the provider accepts the upload, the
    handler does four things and nothing else: the upload call, the
    existence test, the deletion of the temporary file, and a 200 whose
    body carries [public_id] and [secure_url] of the provider's answer and
    no other property of it. Nothing is logged. Conversely a 200 is only
    ever sent after the provider accepted. *)
Theorem cloudinary_success_run
    (env : gmap string jsstring) (dirname : jsstring)
    (req : request) (g : jsstring) (file : upload_file) (w : world) :
  body_guestName req = Some g -> g <> [] ->
  req_file req = Some file -> file_path file ∈ files w ->
  file_path file <> [] ->
  let t := trace (serve (CloudinaryServer.upload_handler env dirname req) w) in
  let call :=
    CloudinaryUpload (file_path file)
      (CloudinaryServer.upload_call_options env g) in
  (forall res,
      uploader_upload (remote w) [] (file_path file)
        (CloudinaryServer.upload_call_options env g) = Return res ->
      t = [ Remote call; ExistsSync (file_path file);
            UnlinkSync (file_path file);
            Send (Response 200
                    (JObj [ ("success", JBool true);
                            ("file",
                               JObj [ ("public_id",
                                         json_of_value (public_id res));
                                      ("url",
                                         json_of_value (secure_url res)) ])
                          ]%string)) ])
  /\ (statuses t = [200%Z] ->
      exists res,
        uploader_upload (remote w) [] (file_path file)
          (CloudinaryServer.upload_call_options env g) = Return res).
Proof.
  intros Hb0%body_guestName_Some Hne%truthy_nonempty Hf0 Hin
    Hp0%truthy_nonempty. cbv zeta.
  remember (uploader_upload (remote w) [] (file_path file)
              (CloudinaryServer.upload_call_options env g)) as reply
    eqn:Hreply.
  cloudinary_cases req w; try congruence;
    injection Hb0 as <-; injection Hf0 as <-; try congruence;
    try contradiction;
    rewrite Hup in Hreply; subst reply;
    (split; [intros res' Hres'; try congruence;
             injection Hres' as <-; reflexivity
            | intros Hst; try discriminate Hst; eexists; reflexivity]).
Qed.

Lemma cloudinary_success_run_witness :
  statuses
    (trace (serve (CloudinaryServer.upload_handler Sample.env Sample.dirname
                     Sample.upload) (Sample.host Sample.accepting)))
  = [200%Z].
Proof.
  destruct (cloudinary_success_run Sample.env Sample.dirname Sample.upload
              (lit "Ana & Luis-2") Sample.photo
              (Sample.host Sample.accepting)) as [Hrun _].
  - reflexivity.
  - discriminate.
  - reflexivity.
  - vm_compute. reflexivity.
  - discriminate.
  - unfold statuses. rewrite (Hrun _ eq_refl). reflexivity.
Defined.

(** X5. When the provider rejects the upload and the log can be written,
    exactly one line is appended, to [upload_errors.log] next to the
    server, and the [id] it records is the [id] sent to the client, so the
    generic answer can be matched with its log entry. The line records the
    guest name and the original file name of the request. When the log
    cannot be written, no line is appended and the answer is the same. *)
Theorem cloudinary_failure_is_logged_under_the_same_id
    (env : gmap string jsstring) (dirname : jsstring)
    (req : request) (err : js_error) (w : world) :
  first_failure (remote w) []
    (trace (serve (CloudinaryServer.upload_handler env dirname req) w))
  = Some err ->
  let t := trace (serve (CloudinaryServer.upload_handler env dirname req) w) in
  let id := CloudinaryServer.errorId (clock w) (random36 w) in
  responses t = [generic_failure w]
  /\ json_get "id" (body (generic_failure w)) = Some (JStr id)
  /\ (append_fault w = None ->
      exists line,
        appended t = [(CloudinaryServer.logPath dirname, line)]
        /\ json_get "id" line = Some (JStr id)
        /\ json_get "guestName" line
           = Some (string_or_null (body_guestName req))
        /\ json_get "originalName" line
           = Some (string_or_null (f ← req_file req; originalname f))
        /\ json_get "message" line
           = Some (JStr (CloudinaryServer.redact env
                           (CloudinaryServer.message_of err))))
  /\ (append_fault w <> None -> appended t = []).
Proof.
  intros Hfail.
  destruct (cloudinary_failure_inv env dirname req w err Hfail)
    as (g & file & Hb0%body_guestName_Some & Ht0 & Hf0 & Hup0).
  clear Hfail. cbv zeta. unfold body_guestName.
  cloudinary_cases req w; try congruence;
    injection Hb0 as <-; injection Hf0 as <-; try congruence;
    rewrite Hup0 in *; try discriminate;
    match goal with H : Throw _ = Throw _ |- _ => injection H as <- end;
    (split; [reflexivity|]); (split; [reflexivity|]);
    (split; [intros Hnone; try discriminate Hnone
            | intros Hsome; try congruence; try reflexivity]);
    eexists; (split; [reflexivity|]); repeat split;
    simpl; rewrite ?Ht, ?Hf; reflexivity.
Qed.

Lemma cloudinary_failure_is_logged_under_the_same_id_witness :
  exists line,
    appended
      (trace (serve (CloudinaryServer.upload_handler Sample.env
                       Sample.dirname Sample.upload)
                    (Sample.host Sample.rejecting)))
    = [(lit "/srv/app/upload_errors.log", line)]
    /\ json_get "id" line = Some (JStr (lit "loyw3v28-4fzyo8"))
    /\ json_get "message" line
       = Some (JStr (lit "Invalid api_key [REDACTED_API_KEY]")).
Proof.
  destruct (cloudinary_failure_is_logged_under_the_same_id Sample.env
              Sample.dirname Sample.upload Sample.provider_error
              (Sample.host Sample.rejecting))
    as (_ & _ & Hlog & _).
  - vm_compute. reflexivity.
  - destruct (Hlog eq_refl) as (line & Hline & Hid & _ & _ & Hmsg).
    exists line. split; [exact Hline|]. split.
    + rewrite Hid. vm_compute. reflexivity.
    + rewrite Hmsg. vm_compute. reflexivity.
Defined.

(** ** Redaction *)

Lemma occurs_occursb (key t : jsstring) :
  occurs key t -> occursb key t = true.
Proof.
  intros (pre & post & ->). unfold occursb.
  apply existsb_exists. exists (length pre). split.
  - apply in_seq. rewrite length_app. lia.
  - apply bool_decide_eq_true. rewrite drop_app_length.
    exists post. reflexivity.
Qed.

Lemma redact_clean (env : gmap string jsstring) (key s : jsstring) :
  env_has env "CLOUDINARY_API_KEY" key ->
  (forall c, c ∈ key -> c ∉ lit "[REDACTED_API_KEY]") ->
  ~ occurs key (CloudinaryServer.redact env s).
Proof.
  intros [Hkey Ht] Hapart.
  assert (Hne : key <> []) by now apply truthy_nonempty.
  unfold CloudinaryServer.redact.
  destruct (truthy s) eqn:Hs; simpl.
  - rewrite Hkey, Ht.
    apply split_join_from_clean; [exact Hne | discriminate | exact Hapart].
  - destruct s; [|discriminate]. now apply occurs_nil.
Qed.

(** X6. With an API key that has no code unit in common with the marker
    [[REDACTED_API_KEY]] (a key made of digits, say), the [message] and the
    [stack] of every line the upload handler appends to its log are free of
    the key, whatever the provider's error says. *)
Theorem logged_error_text_never_contains_the_api_key
    (env : gmap string jsstring) (dirname : jsstring)
    (req : request) (w : world) (key : jsstring)
    (p : jsstring) (line : json) (field : string) (text : jsstring) :
  env_has env "CLOUDINARY_API_KEY" key ->
  (forall c, c ∈ key -> c ∉ lit "[REDACTED_API_KEY]") ->
  (p, line)
    ∈ appended
        (trace (serve (CloudinaryServer.upload_handler env dirname req) w)) ->
  field = "message"%string \/ field = "stack"%string ->
  json_get field line = Some (JStr text) ->
  ~ occurs key text.
Proof.
  intros Hkey Hapart Hin Hfield Hget. revert Hin.
  cloudinary_cases req w; intros Hin;
    try (apply elem_of_nil in Hin; contradiction);
    apply list_elem_of_singleton in Hin; injection Hin as -> ->;
    destruct Hfield as [-> | ->]; simpl in Hget.
  all: try (injection Hget as <-; now apply redact_clean).
  all: unfold CloudinaryServer.redacted_stack in Hget;
    destruct (err_stack _) as [st|]; [destruct (truthy st)|];
    try discriminate Hget; injection Hget as <-; now apply redact_clean.
Qed.

Lemma logged_error_text_never_contains_the_api_key_witness :
  ~ occurs (lit "123456") (lit "Invalid api_key [REDACTED_API_KEY]").
Proof.
  apply (logged_error_text_never_contains_the_api_key Sample.env
           Sample.dirname Sample.upload (Sample.host Sample.rejecting)
           (lit "123456") (lit "/srv/app/upload_errors.log")
           (JObj [ ("id", JStr (lit "loyw3v28-4fzyo8"));
                   ("ts", JStr (lit "2023-11-14T22:13:20.000Z"));
                   ("guestName", JStr (lit "Ana & Luis-2"));
                   ("originalName", JStr (lit "img.jpg"));
                   ("message",
                      JStr (lit "Invalid api_key [REDACTED_API_KEY]"));
                   ("stack",
                      JStr (lit "Error: Invalid api_key [REDACTED_API_KEY] at upload"))
                 ]%string)
           "message"%string).
  - split; reflexivity.
  - intros c Hc Hm. apply list_elem_of_In in Hc. vm_compute in Hc.
    repeat (destruct Hc as [<-|Hc];
            [apply (bool_decide_pack _) in Hm; vm_compute in Hm; exact Hm|]).
    exact Hc.
  - vm_compute. left.
  - left. reflexivity.
  - vm_compute. reflexivity.
Defined.

(** X7. Redaction touches the API key and nothing else: a text in which
    the configured key does not occur is logged as it is, and so is every
    text when no key is configured. Other secrets, the API secret among
    them, are not removed. *)
Theorem redact_keeps_text_without_the_key
    (env : gmap string jsstring) (s : jsstring) :
  (forall key, env !! "CLOUDINARY_API_KEY"%string = Some key ->
               ~ occurs key s) ->
  CloudinaryServer.redact env s = s.
Proof.
  intros Hno. unfold CloudinaryServer.redact.
  destruct (truthy s); simpl; [|reflexivity].
  destruct (env !! "CLOUDINARY_API_KEY"%string) as [key|]; [|reflexivity].
  destruct (truthy key); [|reflexivity].
  apply split_join_absent, Hno. reflexivity.
Qed.

Lemma redact_keeps_text_without_the_key_witness :
  CloudinaryServer.redact Sample.env (lit "bad s3cret") = lit "bad s3cret".
Proof.
  apply redact_keeps_text_without_the_key.
  intros key Hkey. vm_compute in Hkey. injection Hkey as <-.
  intros Hocc. apply occurs_occursb in Hocc. vm_compute in Hocc.
  discriminate Hocc.
Defined.

(** ** Folders *)

Lemma sanitized_in_class s :
  Forall (fun c => c ∈ word_dash_chars)
         (replace_outside class_word_dash underscore s).
Proof.
  unfold replace_outside. apply Forall_fmap, Forall_true. intros c. simpl.
  destruct (class_word_dash c) eqn:Hc.
  - rewrite class_word_dash_spec in Hc. now apply bool_decide_eq_true in Hc.
  - apply (bool_decide_unpack _). vm_compute. exact I.
Qed.

(** X8. Every folder either program names is a direct child of the base
    folder: the base folder, a slash, and one non-empty segment made of
    [A-Za-z0-9_-] only, so a guest name cannot add a path separator or a
    dot segment. This holds for the [folder] option of every upload call
    the Cloudinary handler makes and for the folder of every signing
    request. *)
Theorem folders_are_direct_children_of_the_base_folder
    (env : gmap string jsstring) (dirname : jsstring)
    (req : request) (w : world) (ev : SignFunction.netlify_event) :
  Forall
    (fun c =>
       exists segment,
         call_folder c
         = Some (CloudinaryServer.mainFolder env ++ lit "/" ++ segment)
         /\ segment <> []
         /\ Forall (fun x => x ∈ word_dash_chars) segment)
    (remote_calls
       (trace (serve (CloudinaryServer.upload_handler env dirname req) w)))
  /\ exists segment,
       SignFunction.folder env ev
       = SignFunction.BASE_FOLDER env ++ lit "/" ++ segment
       /\ segment <> []
       /\ Forall (fun x => x ∈ word_dash_chars) segment.
Proof.
  split.
  - cloudinary_cases req w; try constructor; try constructor;
      match goal with
      | Ht : truthy ?g = true |- _ =>
          exists (CloudinaryServer.sanitized g);
          (split; [reflexivity|]);
          (split; [intros Hnil; apply replace_outside_nil in Hnil;
                   subst g; discriminate
                  | apply sanitized_in_class])
      end.
  - exists (SignFunction.sanitized ev). split; [reflexivity|].
    split; [apply sign_sanitized_nonempty|].
    destruct (sign_sanitized_cases ev) as [[_ ->]|[_ ->]].
    + apply (bool_decide_unpack _). vm_compute. exact I.
    + apply sanitized_in_class.
Qed.

(** ** The Drive upload handler, every run *)

(** X9. Whatever the request, the credentials and the provider, the Drive
    upload handler ends without throwing and has sent exactly one response,
    with status 200, 400 or 500. *)
Theorem drive_answers_exactly_once
    (client : option DriveServer.OAuth2Client) (req : request) (w : world) :
  result (DriveServer.upload_handler client req) w = Return tt
  /\ exists r,
       responses (trace (serve (DriveServer.upload_handler client req) w))
       = [r]
       /\ (status r = 200 \/ status r = 400 \/ status r = 500)%Z.
Proof.
  destruct client as [auth|].
  - drive_cases req w;
      (split; [reflexivity|]); eexists; (split; [reflexivity|]); simpl; auto.
  - split; [reflexivity|]. eexists. split; [reflexivity|]. simpl. auto.
Qed.

(** X10. Once the Drive handler is configured and both guards pass with a
    guest name that is a string, only the temporary file of the request
    can leave the disk, and [unlinkSync] is called on nothing else. When
    the file system refuses no deletion, the file is gone when the handler
    ends, after one call if it was there and none otherwise. After the
    upload the deletion is not guarded: if it is refused, the error goes to
    the [catch] block, the answer is 500 with its message, and the
    [finally] block tries a second time; the file stays if that is refused
    too. After a rejected call only the [finally] block tries, and a
    refusal is dropped: the file stays. *)
Theorem drive_temp_file_removed_unless_refused
    (auth : DriveServer.OAuth2Client) (req : request)
    (g : jsstring) (file : upload_file) (w : world) :
  body_guestName req = Some g -> g <> [] ->
  req_file req = Some file -> file_path file <> [] ->
  let w' := serve (DriveServer.upload_handler (Some auth) req) w in
  let t := trace w' in
  let p := file_path file in
  let rejected := first_failure (remote w) [] t in
  let answer e :=
    [Response 500
       (JObj [ ("success", JBool false);
               ("error", json_of_value (err_message e)) ]%string)] in
  (refused (unlink_faults w) [] t = [] ->
   files w' = files w ∖ {[p]}
   /\ unlinks t = (if bool_decide (p ∈ files w) then [p] else []))
  /\ (forall e, refused (unlink_faults w) [] t = [e] ->
      p ∈ files w
      /\ (rejected = None ->
          unlinks t = [p; p] /\ files w' = files w ∖ {[p]}
          /\ responses t = answer e)
      /\ (rejected <> None -> unlinks t = [p] /\ files w' = files w))
  /\ (forall e e', refused (unlink_faults w) [] t = [e; e'] ->
      p ∈ files w /\ rejected = None /\ unlinks t = [p; p]
      /\ files w' = files w /\ responses t = answer e)
  /\ (length (refused (unlink_faults w) [] t) <= 2)%nat.
Proof.
  intros Hb0%body_guestName_Some Hne%truthy_nonempty Hf0
    Hp0%truthy_nonempty. cbv zeta.
  drive_cases req w; try congruence;
    injection Hb0 as <-; injection Hf0 as <-; try congruence;
    rewrite ?bool_decide_eq_true_2, ?bool_decide_eq_false_2 by assumption;
    try (exfalso; set_solver);
    rewrite_replies; simpl; rewrite ?Hunlink, ?Hunlink0; simpl;
    (split; [intros Hnone; try discriminate Hnone;
             (split; [set_solver | reflexivity])|]);
    (split; [intros first_error Hone; try discriminate Hone;
             injection Hone as <-;
             (split; [assumption|]);
             (split; intros Hrej; try congruence; try discriminate Hrej;
              repeat split; try reflexivity; set_solver)|]);
    (split; [intros first_error second_error Htwo; try discriminate Htwo;
             injection Htwo as <- <-;
             repeat split; try reflexivity; try assumption; set_solver|]);
    lia.
Qed.

Lemma drive_temp_file_removed_unless_refused_witness :
  files (serve (DriveServer.upload_handler (Some Sample.auth) Sample.upload)
               (Sample.host Sample.rejecting))
  = files (Sample.host Sample.rejecting) ∖ {[Sample.temp]}
  /\ unlinks
       (trace (serve (DriveServer.upload_handler (Some Sample.auth)
                        Sample.upload) (Sample.locked Sample.accepting)))
     = [Sample.temp; Sample.temp]
  /\ files (serve (DriveServer.upload_handler (Some Sample.auth)
                     Sample.upload) (Sample.locked Sample.accepting))
     = files (Sample.locked Sample.accepting)
  /\ responses
       (trace (serve (DriveServer.upload_handler (Some Sample.auth)
                        Sample.upload) (Sample.locked Sample.accepting)))
     = [Response 500
          (JObj [ ("success", JBool false);
                  ("error",
                     JStr (lit "EBUSY: resource busy or locked, unlink 'uploads/3f9c2a'"))
                ]%string)].
Proof.
  destruct (drive_temp_file_removed_unless_refused Sample.auth Sample.upload
              (lit "Ana & Luis-2") Sample.photo
              (Sample.host Sample.rejecting))
    as (Hclean & _);
    [reflexivity | discriminate | reflexivity | discriminate |].
  destruct (drive_temp_file_removed_unless_refused Sample.auth Sample.upload
              (lit "Ana & Luis-2") Sample.photo
              (Sample.locked Sample.accepting))
    as (_ & _ & Htwice & _);
    [reflexivity | discriminate | reflexivity | discriminate |].
  destruct (Htwice Sample.busy Sample.busy) as (_ & _ & Hun & Hfiles & Hresp).
  { vm_compute. reflexivity. }
  split; [apply Hclean; vm_compute; reflexivity|].
  split; [exact Hun|]. split; [exact Hfiles|].
  rewrite Hresp. vm_compute. reflexivity.
Defined.

(** X11. The Drive handler never repeats a call: a run makes at most five
    calls to the provider, creates at most two folders and uploads the file
    at most once. *)
Theorem drive_call_budget
    (client : option DriveServer.OAuth2Client) (req : request) (w : world) :
  let calls :=
    remote_calls (trace (serve (DriveServer.upload_handler client req) w)) in
  (length calls <= 5)%nat
  /\ (length (List.filter creates_folder calls) <= 2)%nat
  /\ (length (List.filter carries_media calls) <= 1)%nat.
Proof.
  cbv zeta. destruct client as [auth|].
  - drive_cases req w; simpl; lia.
  - simpl. lia.
Qed.

(** X12. A request with a guest name and a file, on a configured Drive
    server, is answered 200 exactly when the guest name is a string, the
    provider rejected no call of the run, and the file system did not
    refuse the deletion of the temporary file. *)
Theorem drive_succeeds_iff_nothing_fails
    (auth : DriveServer.OAuth2Client) (req : request)
    (form : form) (file : upload_file) (w : world) :
  req_body req = Some form ->
  field_truthy (field_guestName form) = true ->
  req_file req = Some file ->
  let t := trace (serve (DriveServer.upload_handler (Some auth) req) w) in
  statuses t = [200%Z]
  <-> (exists g, field_guestName form = Text g)
      /\ first_failure (remote w) [] t = None
      /\ refused (unlink_faults w) [] t = [].
Proof.
  intros Hb0 Hv0 Hf0. cbv zeta.
  drive_cases req w; try congruence;
    injection Hb0 as <-; simpl in Hv0; try congruence;
    rewrite_replies; simpl; rewrite ?Hunlink, ?Hunlink0; simpl;
    (split; [intros H; try discriminate H;
             (split; [eexists; reflexivity|]); split; reflexivity
            | intros ([g' Hg'] & Hrej & Href);
              try discriminate Hg'; try discriminate Hrej;
              try discriminate Href; reflexivity]).
Qed.

Lemma drive_succeeds_iff_nothing_fails_witness :
  statuses
    (trace (serve (DriveServer.upload_handler (Some Sample.auth)
                     Sample.upload) (Sample.host Sample.accepting)))
  = [200%Z]
  /\ statuses
       (trace (serve (DriveServer.upload_handler (Some Sample.auth)
                        Sample.repeated_name) (Sample.host Sample.accepting)))
     <> [200%Z].
Proof.
  split.
  - apply (drive_succeeds_iff_nothing_fails Sample.auth Sample.upload
             (Form (Text (lit "Ana & Luis-2"))) Sample.photo
             (Sample.host Sample.accepting));
      [reflexivity | reflexivity | reflexivity |].
    split; [eexists; reflexivity|]. split; vm_compute; reflexivity.
  - intros H.
    apply (drive_succeeds_iff_nothing_fails Sample.auth Sample.repeated_name
             (Form (Other true (Some (lit "Ana,Luis")))) Sample.photo
             (Sample.host Sample.accepting)) in H;
      [|reflexivity | reflexivity | reflexivity].
    destruct H as [[g Hg] _]. discriminate Hg.
Defined.

(** X13. When the provider finds both folders, the handler creates none:
    it looks up the main folder, looks up the guest folder under the first
    main folder found, and uploads the file into the first guest folder
    found, under the name made of the clock, an underscore and the original
    file name. The 200 carries the file the provider returned; it is sent
    after the temporary file is deleted, so when the file system refuses
    that deletion the answer is a 500 with the message of its error. *)
Theorem drive_uploads_into_the_folders_found
    (auth : DriveServer.OAuth2Client) (req : request)
    (g : jsstring) (file : upload_file) (w : world)
    (main guest : jsstring) (mains guests : list jsstring)
    (created : drive_file) :
  body_guestName req = Some g -> g <> [] ->
  req_file req = Some file ->
  let fields := lit "files(id)" in
  let lookup_main := DriveFilesList DriveServer.main_folder_query fields in
  let lookup_guest :=
    DriveFilesList
      (DriveServer.guest_folder_query (DriveServer.sanitizedName g) main)
      fields in
  let upload :=
    DriveFilesCreate
      {| name := int_toString 10 (clock w) ++ lit "_"
                 ++ to_String (originalname file);
         mimeType := None;
         parents := [guest] |}
      (Some {| media_mimeType := mimetype file;
               media_body := file_path file |})
      (lit "id, name, webViewLink") in
  files_list (remote w) [] DriveServer.main_folder_query fields
    = Return (main :: mains) ->
  files_list (remote w) [Remote lookup_main]
    (DriveServer.guest_folder_query (DriveServer.sanitizedName g) main) fields
    = Return (guest :: guests) ->
  files_create (remote w) [Remote lookup_main; Remote lookup_guest]
    {| name := int_toString 10 (clock w) ++ lit "_"
               ++ to_String (originalname file);
       mimeType := None;
       parents := [guest] |}
    (Some {| media_mimeType := mimetype file;
             media_body := file_path file |})
    (lit "id, name, webViewLink")
    = Return created ->
  let t := trace (serve (DriveServer.upload_handler (Some auth) req) w) in
  remote_calls t = [lookup_main; lookup_guest; upload]
  /\ (refused (unlink_faults w) [] t = [] ->
      responses t
      = [Response 200
           (JObj [ ("success", JBool true);
                   ("file",
                      JObj [ ("id", JStr (id created));
                             ("name", json_of_value (file_name created));
                             ("webViewLink",
                                json_of_value (webViewLink created)) ])
                 ]%string)])
  /\ (forall e rest,
      refused (unlink_faults w) [] t = e :: rest ->
      responses t
      = [Response 500
           (JObj [ ("success", JBool false);
                   ("error", json_of_value (err_message e)) ]%string)]).
Proof.
  intros Hb0%body_guestName_Some Hne%truthy_nonempty Hf0. cbv zeta.
  intros Hmain Hguest Hup.
  unfold result, serve.
  remember (DriveServer.upload_handler (Some auth) req (fresh w)) as run
    eqn:Hrun.
  revert Hrun.
  unfold fresh, DriveServer.upload_handler,
    DriveServer.tempPath_at_exit, DriveServer.finally_cleanup.
  rewrite Hb0, Hf0. simpl. rewrite Hne. host_unfold.
  unfold DriveServer.upload_steps, DriveServer.first_or_create,
    replace_receiver.
  host_unfold. rewrite Hmain. host_unfold. rewrite Hguest. host_unfold.
  match goal with
  | |- context [files_create ?p ?t ?r ?m ?f] =>
      replace (files_create p t r m f) with (Return created)
        by (symmetry; exact Hup)
  end.
  host_unfold.
  destruct (truthy (file_path file)); host_unfold;
    repeat (file_step; host_unfold);
    intros ->; simpl;
    repeat match goal with
           | H : unlink_faults _ _ _ = _ |- _ => rewrite H; simpl
           end;
    (split; [reflexivity|]);
    (split; [intros Hnone; try discriminate Hnone; reflexivity
            | intros first_error others Hsome; try discriminate Hsome;
              injection Hsome as <- _; reflexivity]).
Qed.

Lemma drive_uploads_into_the_folders_found_witness :
  length
    (remote_calls
       (trace (serve (DriveServer.upload_handler (Some Sample.auth)
                        Sample.upload) (Sample.host Sample.accepting))))
  = 3%nat
  /\ responses
       (trace (serve (DriveServer.upload_handler (Some Sample.auth)
                        Sample.upload) (Sample.host Sample.accepting)))
     = [Response 200
          (JObj [ ("success", JBool true);
                  ("file",
                     JObj [ ("id", JStr (lit "file-1"));
                            ("name", JStr (lit "img.jpg"));
                            ("webViewLink", JUndefined) ])
                ]%string)]
  /\ responses
       (trace (serve (DriveServer.upload_handler (Some Sample.auth)
                        Sample.upload) (Sample.locked Sample.accepting)))
     = [Response 500
          (JObj [ ("success", JBool false);
                  ("error",
                     JStr (lit "EBUSY: resource busy or locked, unlink 'uploads/3f9c2a'"))
                ]%string)].
Proof.
  destruct (drive_uploads_into_the_folders_found Sample.auth Sample.upload
              (lit "Ana & Luis-2") Sample.photo (Sample.host Sample.accepting)
              (lit "folder-1") (lit "folder-1") [] []
              (DriveFile (lit "file-1") (Some (lit "img.jpg")) None))
    as (Hcalls & Hsent & _);
    [reflexivity | discriminate | reflexivity | reflexivity | reflexivity
    | reflexivity |].
  destruct (drive_uploads_into_the_folders_found Sample.auth Sample.upload
              (lit "Ana & Luis-2") Sample.photo
              (Sample.locked Sample.accepting)
              (lit "folder-1") (lit "folder-1") [] []
              (DriveFile (lit "file-1") (Some (lit "img.jpg")) None))
    as (_ & _ & Hrefused);
    [reflexivity | discriminate | reflexivity | reflexivity | reflexivity
    | reflexivity |].
  split; [rewrite Hcalls; reflexivity|]. split.
  - rewrite Hsent; vm_compute; reflexivity.
  - rewrite (Hrefused Sample.busy [Sample.busy]); vm_compute; reflexivity.
Defined.

(** X14. When the provider finds neither folder, the handler creates both,
    in order: the main folder [Fotos_Boda] at the root, then the guest
    folder, named after the sanitized guest name, inside the main folder
    just created; the file is then sent into the guest folder just
    created. *)
Theorem drive_creates_the_missing_folders
    (auth : DriveServer.OAuth2Client) (req : request)
    (g : jsstring) (file : upload_file) (w : world)
    (main guest : drive_file) :
  body_guestName req = Some g -> g <> [] ->
  req_file req = Some file ->
  let fields := lit "files(id)" in
  let folder_named name parents :=
    {| name := name; mimeType := Some DriveServer.folder_mime;
       parents := parents |} in
  let lookup_main := DriveFilesList DriveServer.main_folder_query fields in
  let create_main :=
    DriveFilesCreate (folder_named DriveServer.mainFolder []) None (lit "id") in
  let lookup_guest :=
    DriveFilesList
      (DriveServer.guest_folder_query (DriveServer.sanitizedName g) (id main))
      fields in
  let create_guest :=
    DriveFilesCreate
      (folder_named (DriveServer.sanitizedName g) [id main]) None (lit "id") in
  let upload :=
    DriveFilesCreate
      {| name := int_toString 10 (clock w) ++ lit "_"
                 ++ to_String (originalname file);
         mimeType := None;
         parents := [id guest] |}
      (Some {| media_mimeType := mimetype file;
               media_body := file_path file |})
      (lit "id, name, webViewLink") in
  files_list (remote w) [] DriveServer.main_folder_query fields = Return [] ->
  files_create (remote w) [Remote lookup_main]
    (folder_named DriveServer.mainFolder []) None (lit "id") = Return main ->
  files_list (remote w) [Remote lookup_main; Remote create_main]
    (DriveServer.guest_folder_query (DriveServer.sanitizedName g) (id main))
    fields = Return [] ->
  files_create (remote w)
    [Remote lookup_main; Remote create_main; Remote lookup_guest]
    (folder_named (DriveServer.sanitizedName g) [id main]) None (lit "id")
    = Return guest ->
  remote_calls
    (trace (serve (DriveServer.upload_handler (Some auth) req) w))
  = [lookup_main; create_main; lookup_guest; create_guest; upload].
Proof.
  intros Hb0%body_guestName_Some Hne%truthy_nonempty Hf0. cbv zeta.
  intros Hmain Hcreate Hguest Hcreate'.
  unfold result, serve, fresh, DriveServer.upload_handler,
    DriveServer.tempPath_at_exit, DriveServer.finally_cleanup.
  rewrite Hb0, Hf0. simpl. rewrite Hne. host_unfold.
  unfold DriveServer.upload_steps, DriveServer.first_or_create,
    replace_receiver.
  host_unfold. rewrite Hmain. host_unfold.
  match goal with
  | |- context [files_create ?p ?t ?r ?m ?f] =>
      replace (files_create p t r m f) with (Return main)
        by (symmetry; exact Hcreate)
  end.
  host_unfold. rewrite Hguest. host_unfold.
  match goal with
  | |- context [files_create ?p ?t ?r ?m ?f] =>
      replace (files_create p t r m f) with (Return guest)
        by (symmetry; exact Hcreate')
  end.
  host_unfold.
  destruct (truthy (file_path file)); host_unfold;
    repeat (drive_step; host_unfold); reflexivity.
Qed.

Lemma drive_creates_the_missing_folders_witness :
  List.filter creates_folder
    (remote_calls
       (trace (serve (DriveServer.upload_handler (Some Sample.auth)
                        Sample.upload) (Sample.host empty_drive))))
  = [ DriveFilesCreate
        {| name := lit "Fotos_Boda";
           mimeType := Some (lit "application/vnd.google-apps.folder");
           parents := [] |} None (lit "id");
      DriveFilesCreate
        {| name := lit "Ana___Luis_2";
           mimeType := Some (lit "application/vnd.google-apps.folder");
           parents := [lit "id-Fotos_Boda"] |} None (lit "id") ].
Proof.
  rewrite (drive_creates_the_missing_folders Sample.auth Sample.upload
             (lit "Ana & Luis-2") Sample.photo (Sample.host empty_drive)
             (DriveFile (lit "id-Fotos_Boda") None None)
             (DriveFile (lit "id-Ana___Luis_2") None None)).
  - vm_compute. reflexivity.
  - reflexivity.
  - discriminate.
  - reflexivity.
  - reflexivity.
  - reflexivity.
  - reflexivity.
  - reflexivity.
Defined.

(** ** The signing function, every request *)

(** X15. The signing function answers 200 exactly when the cloud name, the
    API key and the API secret are all set and non-empty; otherwise it
    answers 500 with a body that has an [error] and nothing else. Either
    way it returns normally, writes nothing to the console and leaves the
    disk alone. *)
Theorem sign_answers_200_iff_configured
    (env : gmap string jsstring) (ev : SignFunction.netlify_event)
    (w : world) :
  exists r,
    result (SignFunction.handler env ev) w = Return r
    /\ trace (serve (SignFunction.handler env ev) w) = []
    /\ files (serve (SignFunction.handler env ev) w) = files w
    /\ SignFunction.statusCode r
       = (if sign_configured env then 200 else 500)%Z
    /\ body_keys r
       = (if sign_configured env
          then ["api_key"; "timestamp"; "signature"; "cloud_name"; "folder"]
          else ["error"])%string.
Proof.
  unfold result, serve, fresh, sign_configured, SignFunction.handler,
    SignFunction.CLOUD_NAME, SignFunction.API_KEY, SignFunction.API_SECRET.
  destruct (env !! "CLOUDINARY_CLOUD_NAME"%string) as [cloud|]; simpl;
    [destruct (truthy cloud)|];
    (destruct (env !! "CLOUDINARY_API_KEY"%string) as [key|]; simpl;
     [destruct (truthy key)|]);
    (destruct (env !! "CLOUDINARY_API_SECRET"%string) as [secret|]; simpl;
     [destruct (truthy secret)|]);
    host_unfold; eexists; repeat split; reflexivity.
Qed.

(** X16. The signature of every success response is 40 lower-case
    hexadecimal digits. *)
Theorem signature_is_forty_hex_digits
    (env : gmap string jsstring) (ev : SignFunction.netlify_event)
    (w : world) (r : SignFunction.netlify_response) :
  result (SignFunction.handler env ev) w = Return r ->
  SignFunction.statusCode r = 200%Z ->
  exists signature,
    body_field "signature" r = Some (JStr signature)
    /\ length signature = 40%nat
    /\ Forall (fun c => c ∈ hex_digits) signature.
Proof.
  intros Hr Hs.
  destruct (sign_handler_cases env ev w)
    as [(cloud & key & secret & Hc & Hk & Hsec)|Hno];
    [|rewrite Hno in Hr; injection Hr as <-; discriminate Hs].
  rewrite (sign_handler_configured env ev w cloud key secret Hc Hk Hsec) in Hr.
  injection Hr as <-.
  eexists. split; [reflexivity|]. apply sha1_hex_format.
Qed.

Lemma signature_is_forty_hex_digits_witness :
  exists signature,
    body_field "signature"
      (signed_params (lit "demo") (lit "123456") 1700000000
         (SignFunction.signature (lit "wedding_photos/Ana") 1700000000
            (lit "s3cret"))
         (lit "wedding_photos/Ana")) = Some (JStr signature)
    /\ length signature = 40%nat
    /\ Forall (fun c => c ∈ hex_digits) signature.
Proof.
  exact (signature_is_forty_hex_digits Sample.env (Sample.query (lit "Ana"))
           (Sample.host Sample.accepting) _ eq_refl eq_refl).
Defined.

(** X17. The timestamp of a success response is the clock in whole
    seconds: a thousand times the timestamp is at most [Date.now()], and
    [Date.now()] is less than a thousand times the timestamp plus a
    thousand. *)
Theorem timestamp_is_the_clock_in_whole_seconds
    (env : gmap string jsstring) (ev : SignFunction.netlify_event)
    (w : world) (r : SignFunction.netlify_response) :
  result (SignFunction.handler env ev) w = Return r ->
  SignFunction.statusCode r = 200%Z ->
  exists ts,
    body_field "timestamp" r = Some (JNum (Int ts))
    /\ (1000 * ts <= clock w < 1000 * ts + 1000)%Z.
Proof.
  intros Hr Hs.
  destruct (sign_handler_cases env ev w)
    as [(cloud & key & secret & Hc & Hk & Hsec)|Hno];
    [|rewrite Hno in Hr; injection Hr as <-; discriminate Hs].
  rewrite (sign_handler_configured env ev w cloud key secret Hc Hk Hsec) in Hr.
  injection Hr as <-.
  eexists. split; [reflexivity|].
  unfold SignFunction.timestamp.
  pose proof (Z.div_mod (clock w) 1000 ltac:(lia)).
  pose proof (Z.mod_pos_bound (clock w) 1000 ltac:(lia)). lia.
Qed.

Lemma timestamp_is_the_clock_in_whole_seconds_witness :
  exists ts,
    body_field "timestamp"
      (signed_params (lit "demo") (lit "123456") 1700000000
         (SignFunction.signature (lit "wedding_photos/Ana") 1700000000
            (lit "s3cret"))
         (lit "wedding_photos/Ana")) = Some (JNum (Int ts))
    /\ (1000 * ts <= 1700000000999 < 1000 * ts + 1000)%Z.
Proof.
  exact (timestamp_is_the_clock_in_whole_seconds Sample.env
           (Sample.query (lit "Ana")) (Sample.later Sample.accepting)
           _ eq_refl eq_refl).
Defined.

Lemma class_word_dash_not_space c :
  class_word_dash c = true -> is_space c = false.
Proof.
  rewrite class_word_dash_spec. intros Hc%bool_decide_eq_true.
  assert (Hall : Forall (fun x => is_space x = false) word_dash_chars)
    by (apply (bool_decide_unpack _); vm_compute; exact I).
  rewrite Forall_forall in Hall. exact (Hall c Hc).
Qed.

Lemma sign_sanitized_class ev :
  Forall (fun c => class_word_dash c = true) (SignFunction.sanitized ev).
Proof.
  destruct (sign_sanitized_cases ev) as [[_ ->]|[_ ->]].
  - apply (bool_decide_unpack _). vm_compute. exact I.
  - unfold replace_outside. apply Forall_fmap, Forall_true. intros c. simpl.
    destruct (class_word_dash c) eqn:Hc; [exact Hc | reflexivity].
Qed.

Lemma replace_outside_class_fixed s :
  Forall (fun c => class_word_dash c = true) s ->
  replace_outside class_word_dash underscore s = s.
Proof.
  induction 1 as [|c s Hc _ IH]; simpl; [reflexivity|].
  now rewrite Hc, IH.
Qed.

(** X18. The segment the signing function returns is a fixed point of the
    function: a client that sends the segment back as its guest name is
    given the same folder. *)
Theorem sign_segment_is_stable
    (env : gmap string jsstring) (ev ev' : SignFunction.netlify_event) :
  SignFunction.qs ev' !! "guestName"%string
    = Some (SignFunction.sanitized ev) ->
  SignFunction.sanitized ev' = SignFunction.sanitized ev
  /\ SignFunction.folder env ev' = SignFunction.folder env ev.
Proof.
  intros Hq.
  assert (Hs : SignFunction.sanitized ev' = SignFunction.sanitized ev).
  { pose proof (sign_sanitized_class ev) as Hclass.
    pose proof (sign_sanitized_nonempty ev) as Hne.
    destruct (sign_sanitized_cases ev') as [[Hn _]|[_ ->]].
    - rewrite (sign_guestName_trim ev' _ Hq), trim_clean in Hn;
        [contradiction|].
      eapply Forall_impl; [exact Hclass|]. apply class_word_dash_not_space.
    - rewrite (sign_guestName_trim ev' _ Hq), trim_clean.
      + now apply replace_outside_class_fixed.
      + eapply Forall_impl; [exact Hclass|].
        apply class_word_dash_not_space. }
  split; [exact Hs|]. unfold SignFunction.folder. now rewrite Hs.
Qed.

Lemma sign_segment_is_stable_witness :
  SignFunction.folder Sample.env (Sample.query (lit "Ana___Luis"))
  = SignFunction.folder Sample.env (Sample.query (lit " Ana & Luis ")).
Proof.
  exact (proj2 (sign_segment_is_stable Sample.env
                  (Sample.query (lit " Ana & Luis "))
                  (Sample.query (lit "Ana___Luis")) eq_refl)).
Defined.

(** ** The size limit *)

(** X19. When [MAX_FILE_SIZE_MB] holds the decimal writing of an integer
    between -2^53 and 2^53, that integer is the limit: the byte limit
    handed to the multipart middleware is the integer times 1048576, and
    the 413 message prints the same digits back. Beyond 2^53 the limit is
    the nearest double, and other digits are printed. *)
Theorem configured_size_limit_round_trips
    (env : gmap string jsstring) (z : Z) (err : js_error) (w : world) :
  (- 2 ^ 53 <= z <= 2 ^ 53)%Z ->
  env !! "MAX_FILE_SIZE_MB"%string = Some (int_toString 10 z) ->
  err_name err = Some (lit "MulterError") ->
  err_code err = Some (lit "LIMIT_FILE_SIZE") ->
  CloudinaryServer.MAX_FILE_SIZE_MB env = Int z
  /\ CloudinaryRoutes.MAX_FILE_SIZE env = Int (z * 1024 * 1024)
  /\ responses
       (trace (serve (CloudinaryServer.multer_error_middleware env err) w))
     = [Response 413
          (JObj [ ("success", JBool false);
                  ("error",
                     JStr (CloudinaryServer.too_large_prefix
                           ++ int_toString 10 z ++ lit " MB")) ]%string)].
Proof.
  intros Hz Henv Hname Hcode.
  pose proof (size_limit_of_integer env z Hz Henv) as Hmb.
  split; [exact Hmb|]. split.
  - unfold CloudinaryRoutes.MAX_FILE_SIZE, num_mul. rewrite Hmb.
    pose proof (to_double_scaled z 10 Hz) as H10.
    pose proof (to_double_scaled z 20 Hz) as H20.
    change (2 ^ Z.of_N 10)%Z with 1024%Z in H10.
    change (2 ^ Z.of_N 20)%Z with (1024 * 1024)%Z in H20.
    rewrite H10 by (vm_compute; discriminate).
    rewrite <- Z.mul_assoc. apply H20. vm_compute. discriminate.
  - rewrite (too_large_response env err w Hname Hcode), Hmb.
    now rewrite num_toString_safe.
Qed.

Lemma configured_size_limit_round_trips_witness :
  CloudinaryRoutes.MAX_FILE_SIZE Sample.env = Int 26214400
  /\ responses
       (trace (serve (CloudinaryServer.multer_error_middleware Sample.env
                        Sample.size_error) (Sample.host Sample.accepting)))
     = [Response 413
          (JObj [ ("success", JBool false);
                  ("error",
                     JStr (lit "Archivo demasiado grande. Tama" ++ [241]
                           ++ lit "o m" ++ [225]
                           ++ lit "ximo por archivo: 25 MB")) ]%string)].
Proof.
  destruct (configured_size_limit_round_trips Sample.env 25
              Sample.size_error (Sample.host Sample.accepting))
    as (_ & Hbytes & Hsent);
    [vm_compute; split; discriminate | reflexivity | reflexivity
    | reflexivity |].
  split; [exact Hbytes|]. rewrite Hsent. vm_compute. reflexivity.
Defined.

(** The bound of X19 is needed: 2^53 + 1 is read as 2^53. *)
Example size_limit_beyond_2_53 :
  CloudinaryServer.MAX_FILE_SIZE_MB
    {[ "MAX_FILE_SIZE_MB"%string := lit "9007199254740993" ]}
  = Int 9007199254740992.
Proof. vm_compute. reflexivity. Qed.

(** X20. When [MAX_FILE_SIZE_MB] is not set, or set to the empty string,
    the limit is 50 MB: 52428800 bytes, and the 413 message says 50 MB. *)
Theorem default_size_limit_is_50_MB
    (env : gmap string jsstring) (err : js_error) (w : world) :
  (forall s, env !! "MAX_FILE_SIZE_MB"%string = Some s -> s = []) ->
  err_name err = Some (lit "MulterError") ->
  err_code err = Some (lit "LIMIT_FILE_SIZE") ->
  CloudinaryRoutes.MAX_FILE_SIZE env = Int 52428800
  /\ responses
       (trace (serve (CloudinaryServer.multer_error_middleware env err) w))
     = [Response 413
          (JObj [ ("success", JBool false);
                  ("error",
                     JStr (CloudinaryServer.too_large_prefix
                           ++ lit "50" ++ lit " MB")) ]%string)].
Proof.
  intros Henv Hname Hcode.
  pose proof (size_limit_default env Henv) as Hmb.
  split.
  - unfold CloudinaryRoutes.MAX_FILE_SIZE. rewrite Hmb.
    vm_compute. reflexivity.
  - rewrite (too_large_response env err w Hname Hcode), Hmb. reflexivity.
Qed.

Lemma default_size_limit_is_50_MB_witness :
  CloudinaryRoutes.MAX_FILE_SIZE ∅ = Int 52428800.
Proof.
  refine (proj1 (default_size_limit_is_50_MB ∅ Sample.size_error
                   (Sample.host Sample.accepting) _ eq_refl eq_refl)).
  intros s Hs. discriminate Hs.
Defined.

Lemma parseInt10_no_sign (c : N) (rest : jsstring) :
  c <> 45 -> c <> 43 ->
  match c :: rest with
  | 45 :: r => ((-1)%Z, r)
  | 43 :: r => (1%Z, r)
  | _ => (1%Z, c :: rest)
  end = (1%Z, c :: rest).
Proof.
  intros H45 H43. destruct c as [|p]; [reflexivity|].
  repeat (destruct p as [p|p|]; try reflexivity; try congruence).
Qed.

(** X21. When [MAX_FILE_SIZE_MB] is set to a text that does not start,
    after white space, with a digit or a sign, no number is read: the byte
    limit is [NaN] and the 413 message says [NaN MB]. *)
Theorem unreadable_size_limit_is_NaN
    (env : gmap string jsstring) (s : jsstring) (c : N) (rest : jsstring)
    (err : js_error) (w : world) :
  env !! "MAX_FILE_SIZE_MB"%string = Some s ->
  trimStart s = c :: rest ->
  in_range 48 57 c = false -> c <> 45 -> c <> 43 ->
  err_name err = Some (lit "MulterError") ->
  err_code err = Some (lit "LIMIT_FILE_SIZE") ->
  CloudinaryRoutes.MAX_FILE_SIZE env = NaN
  /\ responses
       (trace (serve (CloudinaryServer.multer_error_middleware env err) w))
     = [Response 413
          (JObj [ ("success", JBool false);
                  ("error",
                     JStr (CloudinaryServer.too_large_prefix
                           ++ lit "NaN" ++ lit " MB")) ]%string)].
Proof.
  intros Henv Htrim Hdigit H45 H43 Hname Hcode.
  assert (Hmb : CloudinaryServer.MAX_FILE_SIZE_MB env = NaN).
  { unfold CloudinaryServer.MAX_FILE_SIZE_MB.
    rewrite Henv, or_else_truthy by (destruct s; [discriminate Htrim|reflexivity]).
    unfold parseInt10. rewrite Htrim, parseInt10_no_sign by assumption.
    simpl. now rewrite Hdigit. }
  split.
  - unfold CloudinaryRoutes.MAX_FILE_SIZE. rewrite Hmb. reflexivity.
  - rewrite (too_large_response env err w Hname Hcode), Hmb. reflexivity.
Qed.

Lemma unreadable_size_limit_is_NaN_witness :
  CloudinaryRoutes.MAX_FILE_SIZE {[ "MAX_FILE_SIZE_MB"%string := lit " lots" ]}
  = NaN.
Proof.
  refine (proj1 (unreadable_size_limit_is_NaN
                   {[ "MAX_FILE_SIZE_MB"%string := lit " lots" ]}
                   (lit " lots") 108 (lit "ots")
                   Sample.size_error (Sample.host Sample.accepting)
                   eq_refl eq_refl eq_refl _ _ eq_refl eq_refl));
    discriminate.
Defined.

(** ** The error middleware and the health route *)

(** X22. The error middleware leaves every error that is not a multer
    error to the next handler, unchanged, and answers nothing itself; for
    every error it does exactly one of the two, answer or pass on, and it
    never throws. *)
Theorem middleware_passes_other_errors_on
    (env : gmap string jsstring) (err : js_error) (w : world) :
  let t :=
    trace (serve (CloudinaryServer.multer_error_middleware env err) w) in
  result (CloudinaryServer.multer_error_middleware env err) w = Return tt
  /\ (length (responses t) + length (passed_on t) = 1)%nat
  /\ (err_name err <> Some (lit "MulterError") -> t = [Next err]).
Proof.
  cbv zeta.
  unfold result, serve, fresh, CloudinaryServer.multer_error_middleware.
  repeat case_bool_decide; host_unfold; repeat split;
    intros; try reflexivity; contradiction.
Qed.

Lemma middleware_passes_other_errors_on_witness :
  trace (serve (CloudinaryServer.multer_error_middleware Sample.env
                  Sample.provider_error) (Sample.host Sample.accepting))
  = [Next Sample.provider_error].
Proof.
  refine (proj2 (proj2 (middleware_passes_other_errors_on Sample.env
                          Sample.provider_error
                          (Sample.host Sample.accepting))) _).
  vm_compute. discriminate.
Defined.

(** X23. The health route reports the front-end origin the server
    restricts CORS to: when [FRONTEND_ORIGIN] is unset or holds white space
    only, [frontend] is [null] and CORS is unrestricted; otherwise both are
    the trimmed value, which is not empty and has no outer white space. *)
Theorem health_reports_the_cors_origin
    (env : gmap string jsstring) (w : world) :
  let report v :=
    [Response 200
       (JObj [ ("ok", JBool true);
               ("env", JObj [("frontend", v)]) ]%string)] in
  let sent := responses (trace (serve (CloudinaryRoutes.health env) w)) in
  ((forall s, env !! "FRONTEND_ORIGIN"%string = Some s ->
              Forall (fun c => is_space c = true) s) ->
   sent = report JNull /\ CloudinaryRoutes.cors_origin env = None)
  /\ (forall s, env !! "FRONTEND_ORIGIN"%string = Some s ->
                ~ Forall (fun c => is_space c = true) s ->
                sent = report (JStr (trim s))
                /\ CloudinaryRoutes.cors_origin env = Some (trim s)
                /\ trim s <> [] /\ trim (trim s) = trim s).
Proof.
  cbv zeta.
  unfold serve, fresh, CloudinaryRoutes.health, CloudinaryRoutes.cors_origin,
    CloudinaryRoutes.FRONTEND_ORIGIN.
  split.
  - intros Hblank.
    destruct (env !! "FRONTEND_ORIGIN"%string) as [s|]; [|split; reflexivity].
    specialize (Hblank s eq_refl). apply trim_nil_iff in Hblank.
    destruct (truthy s) eqn:Hs; simpl; rewrite ?Hblank, ?Hs;
      split; reflexivity.
  - intros s Hs Hnot. rewrite Hs.
    assert (Hne : trim s <> []) by (rewrite trim_nil_iff; exact Hnot).
    assert (Ht : truthy s = true).
    { destruct s; [exfalso; apply Hnot; constructor | reflexivity]. }
    rewrite Ht. simpl. apply truthy_nonempty in Hne. rewrite Hne.
    repeat split; [now apply truthy_nonempty | apply trim_idem].
Qed.

Lemma health_reports_the_cors_origin_witness :
  CloudinaryRoutes.cors_origin
    {[ "FRONTEND_ORIGIN"%string := lit " https://boda.example " ]}
  = Some (lit "https://boda.example")
  /\ CloudinaryRoutes.cors_origin {[ "FRONTEND_ORIGIN"%string := lit "  " ]}
     = None.
Proof.
  split.
  - refine (eq_trans
              (proj1 (proj2 (proj2 (health_reports_the_cors_origin
                   {[ "FRONTEND_ORIGIN"%string := lit " https://boda.example " ]}
                   (Sample.host Sample.accepting))
                 (lit " https://boda.example ") eq_refl _))) _).
    + intros H. apply (bool_decide_pack _) in H. vm_compute in H. exact H.
    + vm_compute. reflexivity.
  - refine (proj2 (proj1 (health_reports_the_cors_origin
                            {[ "FRONTEND_ORIGIN"%string := lit "  " ]}
                            (Sample.host Sample.accepting)) _)).
    intros s Hs. vm_compute in Hs. injection Hs as <-.
    repeat constructor.
Defined.

(** ** Loading the credentials *)

Lemma make_client_valid c cl :
  DriveStartup.make_client c = Return cl ->
  DriveServer.client_id cl <> [] /\ DriveServer.client_secret cl <> [].
Proof.
  unfold DriveStartup.make_client.
  destruct (DriveStartup.conf_client_id _) as [cid|]; [|discriminate].
  destruct (DriveStartup.conf_client_secret _) as [sec|]; [|discriminate].
  destruct (DriveStartup.conf_redirect_uris _) as [[|first uris]|];
    try discriminate.
  destruct (truthy cid) eqn:Hc; [|discriminate].
  destruct (truthy sec) eqn:Hs; [|discriminate].
  simpl. intros H. injection H as <-. simpl.
  split; now apply truthy_nonempty.
Qed.

Lemma split_on_no_separator (u : jsstring) :
  44 ∉ u -> split_on 44 u = [u].
Proof.
  induction u as [|c u IH]; intros Hno; [reflexivity|].
  simpl. destruct (N.eqb_spec c 44) as [->|Hc].
  - exfalso. apply Hno. left.
  - rewrite IH; [reflexivity|]. intros H. apply Hno. now right.
Qed.

Lemma split_on_blank (u : jsstring) :
  Forall (fun c => c = 44 \/ is_space c = true) u ->
  Forall (Forall (fun c => is_space c = true)) (split_on 44 u).
Proof.
  induction 1 as [|c u Hc _ IH]; simpl; [repeat constructor|].
  destruct (N.eqb_spec c 44) as [->|Hne].
  - constructor; [constructor | exact IH].
  - destruct Hc as [Hc|Hc]; [contradiction|].
    destruct (split_on 44 u) as [|piece pieces]; [repeat constructor; exact Hc|].
    inversion IH; subst. constructor; [constructor|]; assumption.
Qed.

Lemma blank_pieces_filtered (pieces : list jsstring) :
  Forall (Forall (fun c => is_space c = true)) pieces ->
  List.filter truthy (map trim pieces) = [].
Proof.
  induction 1 as [|piece pieces Hp _ IH]; [reflexivity|].
  simpl. apply trim_nil_iff in Hp. rewrite Hp. exact IH.
Qed.

Lemma only_variables_find
    (env : gmap string jsstring) (resolve : jsstring -> jsstring)
    (parse read_and_parse : jsstring -> outcome DriveStartup.credentials)
    (on_disk : gset jsstring) :
  only_variables env resolve on_disk ->
  DriveStartup.find_credentials env resolve parse read_and_parse on_disk
  = DriveStartup.from_file_or_variables env resolve read_and_parse on_disk.
Proof.
  intros [Hjson _]. unfold DriveStartup.find_credentials.
  destruct (env !! "GOOGLE_CREDENTIALS_JSON"%string) as [text|];
    [rewrite (Hjson text eq_refl)|]; reflexivity.
Qed.

Lemma client_of_load
    (env : gmap string jsstring) (resolve : jsstring -> jsstring)
    (parse read_and_parse : jsstring -> outcome DriveStartup.credentials)
    (on_disk : gset jsstring) (e : js_error) :
  DriveStartup.load env resolve parse read_and_parse on_disk = Throw e ->
  DriveStartup.oAuth2Client env resolve parse read_and_parse on_disk = None.
Proof. intros H. unfold DriveStartup.oAuth2Client. now rewrite H. Qed.

(** X24. An unparsable [GOOGLE_CREDENTIALS_JSON] is final: the loader does
    not fall back on the credentials file or on the discrete variables,
    however valid they are. The client stays unset, and the upload route
    then answers every request with a 500 and does nothing else. *)
Theorem unparsable_credentials_json_disables_uploads
    (env : gmap string jsstring) (resolve : jsstring -> jsstring)
    (parse read_and_parse : jsstring -> outcome DriveStartup.credentials)
    (on_disk : gset jsstring)
    (text : jsstring) (e : js_error) (req : request) (w : world) :
  env !! "GOOGLE_CREDENTIALS_JSON"%string = Some text ->
  text <> [] ->
  parse text = Throw e ->
  DriveStartup.load env resolve parse read_and_parse on_disk
  = Throw (new_Error (DriveStartup.invalid_json_prefix
                      ++ to_String (err_message e)))
  /\ DriveStartup.oAuth2Client env resolve parse read_and_parse on_disk = None
  /\ trace (serve (DriveServer.upload_handler
                     (DriveStartup.oAuth2Client env resolve parse
                        read_and_parse on_disk) req) w)
     = [Send (Response 500
                (JObj [("error",
                        JStr (lit "OAuth no configurado en el servidor"))
                      ]%string))].
Proof.
  intros Henv Hne%truthy_nonempty Hparse.
  assert (Hload : DriveStartup.load env resolve parse read_and_parse on_disk
                  = Throw (new_Error (DriveStartup.invalid_json_prefix
                                      ++ to_String (err_message e)))).
  { unfold DriveStartup.load, DriveStartup.find_credentials.
    now rewrite Henv, Hne, Hparse. }
  split; [exact Hload|].
  rewrite (client_of_load _ _ _ _ _ _ Hload). split; reflexivity.
Qed.

Lemma unparsable_credentials_json_disables_uploads_witness :
  DriveStartup.oAuth2Client DriveSample.broken_json DriveSample.resolve
    DriveSample.parse DriveSample.parse ∅ = None.
Proof.
  refine (proj1 (proj2 (unparsable_credentials_json_disables_uploads
                          DriveSample.broken_json DriveSample.resolve
                          DriveSample.parse DriveSample.parse ∅
                          (lit "{oops") DriveSample.syntax_error
                          Sample.upload (Sample.host Sample.accepting)
                          eq_refl _ eq_refl))).
  discriminate.
Defined.

(** X25. Whatever the source of the credentials, a client the loader
    builds has a non-empty client id and a non-empty client secret. *)
Theorem loaded_client_has_id_and_secret
    (env : gmap string jsstring) (resolve : jsstring -> jsstring)
    (parse read_and_parse : jsstring -> outcome DriveStartup.credentials)
    (on_disk : gset jsstring) (cl : DriveServer.OAuth2Client) :
  DriveStartup.oAuth2Client env resolve parse read_and_parse on_disk
  = Some cl ->
  DriveServer.client_id cl <> [] /\ DriveServer.client_secret cl <> [].
Proof.
  unfold DriveStartup.oAuth2Client, DriveStartup.load.
  destruct (DriveStartup.find_credentials _ _ _ _ _) as [c|]; [|discriminate].
  destruct (DriveStartup.make_client c) as [cl'|] eqn:Hmake; [|discriminate].
  intros H. injection H as <-. exact (make_client_valid c cl' Hmake).
Qed.

Lemma loaded_client_has_id_and_secret_witness :
  lit "client" <> [] /\ lit "hidden" <> [].
Proof.
  exact (loaded_client_has_id_and_secret DriveSample.variables
           DriveSample.resolve DriveSample.parse DriveSample.parse ∅
           (DriveServer.OAuth2 (lit "client") (lit "hidden")
              (lit "http://localhost:3000/oauth2callback"))
           eq_refl).
Defined.

(** X26. With neither [GOOGLE_CREDENTIALS_JSON] nor a credentials file,
    a non-empty [GOOGLE_CLIENT_ID] and [GOOGLE_CLIENT_SECRET] and a
    [GOOGLE_REDIRECT_URIS] that holds one URI (no comma, not blank) give a
    client with that id, that secret and the URI without its outer white
    space. *)
Theorem client_from_discrete_variables
    (env : gmap string jsstring) (resolve : jsstring -> jsstring)
    (parse read_and_parse : jsstring -> outcome DriveStartup.credentials)
    (on_disk : gset jsstring) (cid secret uri : jsstring) :
  only_variables env resolve on_disk ->
  env_has env "GOOGLE_CLIENT_ID" cid ->
  env_has env "GOOGLE_CLIENT_SECRET" secret ->
  env !! "GOOGLE_REDIRECT_URIS"%string = Some uri ->
  44 ∉ uri -> trim uri <> [] ->
  DriveStartup.oAuth2Client env resolve parse read_and_parse on_disk
  = Some (DriveServer.OAuth2 cid secret (trim uri)).
Proof.
  intros Honly [Hid Htid] [Hsec Htsec] Huri Hcomma Htrim.
  unfold DriveStartup.oAuth2Client, DriveStartup.load.
  rewrite (only_variables_find _ _ _ _ _ Honly).
  unfold DriveStartup.from_file_or_variables.
  rewrite (bool_decide_eq_false_2 _ (proj2 Honly)), Hid, Hsec. simpl.
  rewrite Htid, Htsec. simpl.
  unfold DriveStartup.make_client, DriveStartup.conf_of. simpl.
  unfold DriveStartup.redirects. rewrite Huri.
  assert (Hu : truthy uri = true).
  { destruct uri; [exfalso; apply Htrim; reflexivity | reflexivity]. }
  rewrite (or_else_truthy _ _ Hu), (split_on_no_separator uri Hcomma). simpl.
  apply truthy_nonempty in Htrim. rewrite Htrim, Htid, Htsec. reflexivity.
Qed.

Lemma client_from_discrete_variables_witness :
  DriveStartup.oAuth2Client DriveSample.variables DriveSample.resolve
    DriveSample.parse DriveSample.parse ∅
  = Some (DriveServer.OAuth2 (lit "client") (lit "hidden")
            (lit "http://localhost:3000/oauth2callback")).
Proof.
  refine (eq_trans
            (client_from_discrete_variables DriveSample.variables
               DriveSample.resolve DriveSample.parse DriveSample.parse ∅
               (lit "client") (lit "hidden")
               (lit " http://localhost:3000/oauth2callback ") _ _ _ eq_refl
               _ _) _).
  - split; [intros text H; discriminate H | apply not_elem_of_empty].
  - split; reflexivity.
  - split; reflexivity.
  - intros H. apply (bool_decide_pack _) in H. vm_compute in H. exact H.
  - vm_compute. discriminate.
  - vm_compute. reflexivity.
Defined.

(** X27. In the same situation, when [GOOGLE_REDIRECT_URIS] is unset or
    holds nothing but commas and white space, no client is built, although
    the id and the secret are there. *)
Theorem no_client_without_a_redirect_uri
    (env : gmap string jsstring) (resolve : jsstring -> jsstring)
    (parse read_and_parse : jsstring -> outcome DriveStartup.credentials)
    (on_disk : gset jsstring) (cid secret : jsstring) :
  only_variables env resolve on_disk ->
  env_has env "GOOGLE_CLIENT_ID" cid ->
  env_has env "GOOGLE_CLIENT_SECRET" secret ->
  (forall uris, env !! "GOOGLE_REDIRECT_URIS"%string = Some uris ->
                Forall (fun c => c = 44 \/ is_space c = true) uris) ->
  DriveStartup.load env resolve parse read_and_parse on_disk
  = Throw (new_Error DriveStartup.invalid_credentials)
  /\ DriveStartup.oAuth2Client env resolve parse read_and_parse on_disk
     = None.
Proof.
  intros Honly [Hid Htid] [Hsec Htsec] Huris.
  assert (Hload : DriveStartup.load env resolve parse read_and_parse on_disk
                  = Throw (new_Error DriveStartup.invalid_credentials)).
  { unfold DriveStartup.load.
    rewrite (only_variables_find _ _ _ _ _ Honly).
    unfold DriveStartup.from_file_or_variables.
    rewrite (bool_decide_eq_false_2 _ (proj2 Honly)), Hid, Hsec. simpl.
    rewrite Htid, Htsec. simpl.
    unfold DriveStartup.make_client, DriveStartup.conf_of. simpl.
    assert (Hnone : DriveStartup.redirects env = []).
    { unfold DriveStartup.redirects.
      apply blank_pieces_filtered, split_on_blank.
      destruct (env !! "GOOGLE_REDIRECT_URIS"%string) as [uris|] eqn:Hu;
        [|constructor].
      unfold or_else. destruct (truthy uris); [|constructor].
      apply Huris. reflexivity. }
    rewrite Hnone. reflexivity. }
  split; [exact Hload | exact (client_of_load _ _ _ _ _ _ Hload)].
Qed.

Lemma no_client_without_a_redirect_uri_witness :
  DriveStartup.oAuth2Client DriveSample.without_redirect DriveSample.resolve
    DriveSample.parse DriveSample.parse ∅ = None.
Proof.
  refine (proj2 (no_client_without_a_redirect_uri
                   DriveSample.without_redirect DriveSample.resolve
                   DriveSample.parse DriveSample.parse ∅
                   (lit "client") (lit "hidden") _ _ _ _)).
  - split; [intros text H; discriminate H | apply not_elem_of_empty].
  - split; reflexivity.
  - split; reflexivity.
  - intros uris H. vm_compute in H. injection H as <-.
    repeat (constructor; [first [left; reflexivity | right; reflexivity]|]).
    constructor.
Defined.

(** X28. With no [GOOGLE_CREDENTIALS_JSON], no credentials file, and the
    client id or the client secret missing, the loader gives up with a
    message that names the path it looked at, and the client stays
    unset. *)
Theorem no_credentials_anywhere
    (env : gmap string jsstring) (resolve : jsstring -> jsstring)
    (parse read_and_parse : jsstring -> outcome DriveStartup.credentials)
    (on_disk : gset jsstring) :
  only_variables env resolve on_disk ->
  truthy_val (env !! "GOOGLE_CLIENT_ID"%string)
  && truthy_val (env !! "GOOGLE_CLIENT_SECRET"%string) = false ->
  DriveStartup.load env resolve parse read_and_parse on_disk
  = Throw (new_Error
             (resolve (or_else (env !! "GOOGLE_CREDENTIALS_PATH"%string)
                               (lit "credentials.json"))
              ++ DriveStartup.not_found_suffix))
  /\ DriveStartup.oAuth2Client env resolve parse read_and_parse on_disk
     = None.
Proof.
  intros Honly Hvars.
  assert (Hload : DriveStartup.load env resolve parse read_and_parse on_disk
          = Throw (new_Error
                     (resolve (or_else (env !! "GOOGLE_CREDENTIALS_PATH"%string)
                                       (lit "credentials.json"))
                      ++ DriveStartup.not_found_suffix))).
  { unfold DriveStartup.load.
    rewrite (only_variables_find _ _ _ _ _ Honly).
    unfold DriveStartup.from_file_or_variables.
    rewrite (bool_decide_eq_false_2 _ (proj2 Honly)), Hvars. reflexivity. }
  split; [exact Hload | exact (client_of_load _ _ _ _ _ _ Hload)].
Qed.

Lemma no_credentials_anywhere_witness :
  DriveStartup.load ∅ DriveSample.resolve DriveSample.parse
    DriveSample.parse ∅
  = Throw (new_Error
             (lit "/srv/app/credentials.json no encontrado y variables de entorno de credenciales no proporcionadas")).
Proof.
  refine (eq_trans
            (proj1 (no_credentials_anywhere ∅ DriveSample.resolve
                      DriveSample.parse DriveSample.parse ∅ _ eq_refl)) _).
  - split; [intros text H; discriminate H | apply not_elem_of_empty].
  - vm_compute. reflexivity.
Defined.

(** ** The OAuth callback *)

(** X29. The callback answers 200 exactly when the server has a client,
    the request carries a non-empty code, the provider exchanges it and the
    token file can be written. In every other case the token file is left
    as it was. After a 200 the file holds the token now in memory, so the
    start-up step of the next run restores the same credentials. *)
Theorem callback_persists_the_token_iff_200
    (client : option DriveServer.OAuth2Client)
    (getToken : jsstring -> outcome DriveAuth.tokens)
    (write_fault : option js_error)
    (code : jsvalue) (st : DriveAuth.auth_state) :
  let run := DriveAuth.oauth2callback client getToken write_fault code st in
  let reply := fst run in
  let st' := snd run in
  (DriveAuth.reply_status reply = 200%Z <->
   client <> None /\ write_fault = None
   /\ exists c t, code = Some c /\ c <> [] /\ getToken c = Return t)
  /\ (DriveAuth.reply_status reply <> 200%Z ->
      DriveAuth.token_file st' = DriveAuth.token_file st)
  /\ (DriveAuth.reply_status reply = 200%Z ->
      exists t,
        DriveAuth.credentials st' = Some t
        /\ DriveAuth.token_file st' = Some (DriveAuth.JSON_of t)
        /\ DriveAuth.credentials
             (DriveAuth.load_token client
                (DriveAuth.AuthState None (DriveAuth.token_file st')))
           = Some t).
Proof.
  cbv zeta. unfold DriveAuth.oauth2callback, DriveAuth.exchange.
  destruct client as [cl|]; simpl.
  - destruct code as [c|]; simpl.
    + destruct (truthy c) eqn:Hc; simpl.
      * destruct (getToken c) as [t|e] eqn:Hget; simpl.
        -- destruct write_fault as [e|]; simpl.
           ++ split; [split; [discriminate | intros (_ & H & _); discriminate H]|].
              split; [reflexivity | discriminate].
           ++ split; [split; [intros _ | reflexivity]|].
              ** split; [discriminate|]. split; [reflexivity|].
                 exists c, t. split; [reflexivity|].
                 split; [now apply truthy_nonempty | exact Hget].
              ** split; [intros H; now contradiction H|].
                 intros _. exists t. repeat split.
        -- split; [split; [discriminate|]|].
           ++ intros (_ & _ & c' & t & Hcode & _ & Hget').
              injection Hcode as <-. congruence.
           ++ split; [reflexivity | discriminate].
      * split; [split; [discriminate|]|].
        -- intros (_ & _ & c' & t & Hcode & Hne & _).
           injection Hcode as <-. apply truthy_nonempty in Hne. congruence.
        -- split; [reflexivity | discriminate].
    + split; [split; [discriminate|]|].
      * intros (_ & _ & c' & t & Hcode & _). discriminate Hcode.
      * split; [reflexivity | discriminate].
  - split; [split; [discriminate | intros (H & _); now contradiction H]|].
    split; [reflexivity | discriminate].
Qed.

Lemma callback_persists_the_token_iff_200_witness :
  DriveAuth.reply_status
    (fst (DriveAuth.oauth2callback (Some Sample.auth)
            (fun _ => Return (DriveAuth.Tokens (Some (lit "ya29")) None None))
            None (Some (lit "4/0Ab")) (DriveAuth.AuthState None None)))
  = 200%Z.
Proof.
  apply (proj2 (proj1 (callback_persists_the_token_iff_200 (Some Sample.auth)
                         (fun _ => Return (DriveAuth.Tokens
                                             (Some (lit "ya29")) None None))
                         None (Some (lit "4/0Ab"))
                         (DriveAuth.AuthState None None)))).
  split; [discriminate|]. split; [reflexivity|].
  exists (lit "4/0Ab"), (DriveAuth.Tokens (Some (lit "ya29")) None None).
  split; [reflexivity|]. split; [discriminate | reflexivity].
Defined.

(** X30. When the provider exchanges the code but the token file cannot be
    written, the client is told that authentication failed, yet the
    credentials are already set in memory: the server is authenticated
    until it restarts, and the file on disk still holds what it held. *)
Theorem callback_write_failure_keeps_credentials_in_memory
    (auth : DriveServer.OAuth2Client)
    (getToken : jsstring -> outcome DriveAuth.tokens)
    (e : js_error) (c : jsstring) (t : DriveAuth.tokens)
    (st : DriveAuth.auth_state) :
  c <> [] ->
  getToken c = Return t ->
  DriveAuth.oauth2callback (Some auth) getToken (Some e) (Some c) st
  = (DriveAuth.TextReply 500 DriveAuth.failed,
     DriveAuth.AuthState (Some t) (DriveAuth.token_file st)).
Proof.
  intros Hc%truthy_nonempty Hget.
  unfold DriveAuth.oauth2callback, DriveAuth.exchange.
  now rewrite Hc, Hget.
Qed.

Lemma callback_write_failure_keeps_credentials_in_memory_witness :
  DriveAuth.oauth2callback (Some Sample.auth)
    (fun _ => Return (DriveAuth.Tokens (Some (lit "ya29")) None None))
    (Some Sample.provider_error) (Some (lit "4/0Ab"))
    (DriveAuth.AuthState None None)
  = (DriveAuth.TextReply 500 DriveAuth.failed,
     DriveAuth.AuthState
       (Some (DriveAuth.Tokens (Some (lit "ya29")) None None)) None).
Proof.
  apply (callback_write_failure_keeps_credentials_in_memory Sample.auth
           (fun _ => Return (DriveAuth.Tokens (Some (lit "ya29")) None None))
           Sample.provider_error (lit "4/0Ab")
           (DriveAuth.Tokens (Some (lit "ya29")) None None)
           (DriveAuth.AuthState None None)).
  - discriminate.
  - reflexivity.
Defined.
